(** * The chat session manager of [src/App.tsx], embedded in Rocq

    The component keeps a thread of messages, an input text and a typing
    flag, sends each submitted text to a remote agent and turns the reply
    body into display text ([callAgentAPI]).  The reply body is JSON whose
    content field is itself JSON text, so the embedding starts with the
    part of JavaScript the component relies on: strings of UTF-16 code
    units, JSON values, truthiness, [ToString], [JSON.parse] and
    [JSON.stringify]. *)

From Stdlib Require Import ZArith NArith List Bool Lia.
From Stdlib Require Import Sorting.Permutation.
From Stdlib Require Import Strings.String Strings.Ascii.
From Stdlib Require Import Floats.SpecFloat.
From Stdlib Require Decimal.
Import ListNotations.

Local Open Scope N_scope.

(* ================================================================= *)
(** ** JavaScript strings *)

(** A JavaScript string is a sequence of 16-bit code units. *)
Definition jsstring := list N.

(** The code units of an ASCII literal of the source. *)
Definition lit (s : string) : jsstring :=
  map N_of_ascii (list_ascii_of_string s).

Fixpoint string_eqb (a b : jsstring) : bool :=
  match a, b with
  | [], [] => true
  | x :: a', y :: b' => (x =? y) && string_eqb a' b'
  | _, _ => false
  end.

(** [WhiteSpace] and [LineTerminator] code units, the ones
    [String.prototype.trim] strips. *)
Definition isWhiteSpace (c : N) : bool :=
  (c =? 0x09) || (c =? 0x0A) || (c =? 0x0B) || (c =? 0x0C) || (c =? 0x0D)
  || (c =? 0x20) || (c =? 0xA0) || (c =? 0x1680)
  || ((0x2000 <=? c) && (c <=? 0x200A))
  || (c =? 0x2028) || (c =? 0x2029) || (c =? 0x202F) || (c =? 0x205F)
  || (c =? 0x3000) || (c =? 0xFEFF).

Fixpoint trimStart (s : jsstring) : jsstring :=
  match s with
  | [] => []
  | c :: r => if isWhiteSpace c then trimStart r else s
  end.

Definition trimEnd (s : jsstring) : jsstring := rev (trimStart (rev s)).

(** [s.trim()] *)
Definition trim (s : jsstring) : jsstring := trimEnd (trimStart s).

(* ================================================================= *)
(** ** Numbers

    A Number is an IEEE 754 binary64 value, here a [spec_float] in
    canonical form.  JSON text never denotes NaN. *)

Definition number := spec_float.

Definition prec : Z := 53.
Definition emax : Z := 1024.

(** Decimal digits of a natural number, most significant first. *)
Fixpoint uint_digits (u : Decimal.uint) : jsstring :=
  match u with
  | Decimal.Nil => []
  | Decimal.D0 r => 48 :: uint_digits r
  | Decimal.D1 r => 49 :: uint_digits r
  | Decimal.D2 r => 50 :: uint_digits r
  | Decimal.D3 r => 51 :: uint_digits r
  | Decimal.D4 r => 52 :: uint_digits r
  | Decimal.D5 r => 53 :: uint_digits r
  | Decimal.D6 r => 54 :: uint_digits r
  | Decimal.D7 r => 55 :: uint_digits r
  | Decimal.D8 r => 56 :: uint_digits r
  | Decimal.D9 r => 57 :: uint_digits r
  end.

Definition digits_of_N (n : N) : jsstring := uint_digits (N.to_uint n).

(** Number of decimal digits of [n], with [nb_digits 0 = 0]. *)
Definition nb_digits (n : N) : Z :=
  match n with
  | 0 => 0%Z
  | _ => Z.of_nat (List.length (digits_of_N n))
  end.

(** The Number value of the decimal [m * 10^e10]: the nearest binary64
    value, ties to even.  Magnitudes beyond the binary64 range are cut
    short before any power of ten is computed. *)
Definition number_of_decimal (neg : bool) (m : N) (e10 : Z) : number :=
  match m with
  | 0 => S754_zero neg
  | Npos p =>
      let mag := (nb_digits m + e10)%Z in
      if (400 <? mag)%Z then S754_infinity neg
      else if (mag <? -400)%Z then S754_zero neg
      else if (0 <=? e10)%Z then
        binary_round prec emax neg (p * Z.to_pos (10 ^ e10)) 0
      else
        SFdiv prec emax (S754_finite neg p 0)
              (S754_finite false (Z.to_pos (10 ^ (- e10))) 0)
  end.

(** The exact value of a positive finite Number as a fraction. *)
Definition fraction_of (m : positive) (e : Z) : Z * Z :=
  if (0 <=? e)%Z then (Z.pos m * 2 ^ e, 1)%Z else (Z.pos m, 2 ^ (- e))%Z.

(** [n] with [10^(n-1) <= P/Q < 10^n]. *)
Definition decimal_exponent (P Q : Z) : Z :=
  if (Q <=? P)%Z then nb_digits (Z.to_N (P / Q))
  else
    let c := ((Q + P - 1) / P)%Z in
    (1 - nb_digits (Z.to_N (c - 1)))%Z.

(** [floor (P/Q / 10^t)] *)
Definition scaled_floor (P Q t : Z) : Z :=
  if (0 <=? t)%Z then (P / (Q * 10 ^ t))%Z else (P * 10 ^ (- t) / Q)%Z.

(** Sign of [s * 10^t + s' * 10^t - 2 * P/Q]: which of the two decimals
    [s * 10^t <= P/Q <= s' * 10^t] is closer. *)
Definition closer_is_low (P Q t s s' : Z) : comparison :=
  if (0 <=? t)%Z then (2 * P ?= (s + s') * 10 ^ t * Q)%Z
  else (2 * P * 10 ^ (- t) ?= (s + s') * Q)%Z.

Fixpoint strip_zeros (fuel : nat) (s t : Z) : Z * Z :=
  match fuel with
  | O => (s, t)
  | S f => if (s mod 10 =? 0)%Z then strip_zeros f (s / 10)%Z (t + 1)%Z else (s, t)
  end.

(** The shortest decimal [s * 10^t] whose Number value is the finite
    positive [x = m * 2^e], tried with [k = 1, 2, ...] digits; among two
    candidates the closer one, the even one on a tie. *)
Fixpoint shortest_from (x : number) (P Q n : Z) (k : Z) (fuel : nat) : Z * Z :=
  let t := (n - k)%Z in
  let lo := scaled_floor P Q t in
  let hi := (lo + 1)%Z in
  let ok s := SFeqb (number_of_decimal false (Z.to_N s) t) x in
  match fuel with
  | O => (lo, t)
  | S f =>
      match ok lo, ok hi with
      | true, true =>
          match closer_is_low P Q t lo hi with
          | Lt => (lo, t)
          | Gt => (hi, t)
          | Eq => if Z.even lo then (lo, t) else (hi, t)
          end
      | true, false => (lo, t)
      | false, true => (hi, t)
      | false, false => shortest_from x P Q n (k + 1)%Z f
      end
  end.

Definition shortest_decimal (m : positive) (e : Z) : Z * Z :=
  let (P, Q) := fraction_of m e in
  let n := decimal_exponent P Q in
  let (s, t) := shortest_from (S754_finite false m e) P Q n 1 17 in
  strip_zeros 20 s t.

Definition zeros (n : Z) : jsstring := repeat 48 (Z.to_nat n).

(** [Number::toString(x)] in radix 10. *)
Definition Number_toString (x : number) : jsstring :=
  match x with
  | S754_nan => lit "NaN"
  | S754_zero _ => lit "0"
  | S754_infinity s => (if s then lit "-" else []) ++ lit "Infinity"
  | S754_finite sg m e =>
      let (s, t) := shortest_decimal m e in
      let ds := digits_of_N (Z.to_N s) in
      let k := Z.of_nat (List.length ds) in
      let n := (t + k)%Z in
      let body :=
        if ((k <=? n) && (n <=? 21))%Z then ds ++ zeros (n - k)
        else if ((0 <? n) && (n <=? 21))%Z then
          firstn (Z.to_nat n) ds ++ lit "." ++ skipn (Z.to_nat n) ds
        else if ((-6 <? n) && (n <=? 0))%Z then
          lit "0." ++ zeros (- n) ++ ds
        else
          let ex := (n - 1)%Z in
          let exps := (if (ex <? 0)%Z then lit "-" else lit "+")
                        ++ digits_of_N (Z.abs_N ex) in
          match ds with
          | [] => []
          | [d] => d :: lit "e" ++ exps
          | d :: rest => d :: lit "." ++ rest ++ lit "e" ++ exps
          end in
      (if sg then lit "-" else []) ++ body
  end.

(* ================================================================= *)
(** ** Values

    The values a decoded JSON body is made of, and [undefined], which
    reading an absent property yields.  An object keeps its properties in
    creation order. *)

#[local] Set Warnings "-register-all".

Inductive value :=
| Undefined
| Null
| Boolean (b : bool)
| Number (x : number)
| String (s : jsstring)
| Array (elements : list value)
| Object (properties : list (jsstring * value)).

(** [ToBoolean]: [undefined], [null], [false], [+0], [-0], [NaN] and the
    empty string are falsy, every other value is truthy. *)
Definition truthy (v : value) : bool :=
  match v with
  | Undefined | Null => false
  | Boolean b => b
  | Number (S754_zero _) | Number S754_nan => false
  | Number _ => true
  | String [] => false
  | String _ => true
  | Array _ | Object _ => true
  end.

Fixpoint lookup (k : jsstring) (ps : list (jsstring * value)) : option value :=
  match ps with
  | [] => None
  | (k', v) :: r => if string_eqb k k' then Some v else lookup k r
  end.

(** [CreateDataProperty]: a key already present keeps its place and takes
    the new value. *)
Fixpoint define (k : jsstring) (v : value) (ps : list (jsstring * value))
  : list (jsstring * value) :=
  match ps with
  | [] => [(k, v)]
  | (k', v') :: r =>
      if string_eqb k k' then (k, v) :: r else (k', v') :: define k v r
  end.

(* ================================================================= *)
(** ** Completions: a computation returns a value or throws *)

Inductive exn :=
| TypeError
| SyntaxError
| HttpError (status : N)
| NetworkError.

Inductive completion (A : Type) :=
| Return (a : A)
| Throw (e : exn).
Arguments Return {A} a.
Arguments Throw {A} e.

Definition bind {A B} (c : completion A) (k : A -> completion B) : completion B :=
  match c with
  | Return a => k a
  | Throw e => Throw e
  end.

(** [try { c } catch (error) { h }] *)
Definition try_catch {A} (c : completion A) (h : completion A) : completion A :=
  match c with
  | Return a => Return a
  | Throw _ => h
  end.

(** [a || b]: [b] is evaluated only when [a] is falsy. *)
Definition or_else (a b : completion value) : completion value :=
  bind a (fun x => if truthy x then Return x else b).

Declare Scope js_scope.
Delimit Scope js_scope with js.
Notation "x <- c ;; k" := (bind c (fun x => k))
  (at level 61, c at next level, right associativity) : js_scope.
Notation "a ||| b" := (or_else a b)
  (at level 50, left associativity) : js_scope.
Local Open Scope js_scope.

(** [v.k] for a property name [k] that no prototype defines (the program
    reads "response", "content", "message", "result" and "summary"):
    a TypeError on [undefined] and [null], the own property of an object,
    [undefined] everywhere else. *)
Definition Get (v : value) (k : jsstring) : completion value :=
  match v with
  | Undefined | Null => Throw TypeError
  | Object ps =>
      match lookup k ps with
      | Some x => Return x
      | None => Return Undefined
      end
  | _ => Return Undefined
  end.

(** [v?.k] *)
Definition GetOptional (v : value) (k : jsstring) : completion value :=
  match v with
  | Undefined | Null => Return Undefined
  | _ => Get v k
  end.

Definition has_own (k : jsstring) (ps : list (jsstring * value)) : bool :=
  match lookup k ps with
  | Some _ => true
  | None => false
  end.

(** Join with a separator. *)
Fixpoint join (sep : jsstring) (parts : list jsstring) : jsstring :=
  match parts with
  | [] => []
  | [p] => p
  | p :: r => p ++ sep ++ join sep r
  end.

(** All results, or the first exception. *)
Fixpoint sequence {A} (cs : list (completion A)) : completion (list A) :=
  match cs with
  | [] => Return []
  | c :: r => a <- c ;; l <- sequence r ;; Return (a :: l)
  end.

(** [ToString(v)].  An array is joined with commas, [undefined] and
    [null] elements giving the empty string.  An object of a decoded body
    has no callable property: with an own "toString" neither that nor
    [valueOf] yields a primitive and the conversion throws; without one
    [Object.prototype.toString] answers. *)
Fixpoint ToString (v : value) : completion jsstring :=
  match v with
  | Undefined => Return (lit "undefined")
  | Null => Return (lit "null")
  | Boolean true => Return (lit "true")
  | Boolean false => Return (lit "false")
  | Number x => Return (Number_toString x)
  | String s => Return s
  | Array l =>
      parts <- sequence (map (fun e =>
                 match e with
                 | Undefined | Null => Return []
                 | _ => ToString e
                 end) l) ;;
      Return (join (lit ",") parts)
  | Object ps =>
      if has_own (lit "toString") ps then Throw TypeError
      else Return (lit "[object Object]")
  end.

(* ================================================================= *)
(** ** [JSON.stringify] *)

Definition hex_digit (d : N) : N := if d <? 10 then 48 + d else 87 + d.

(** [\uXXXX] with lower-case hexadecimal digits. *)
Definition unicode_escape (c : N) : jsstring :=
  lit "\u" ++ [hex_digit (c / 4096 mod 16); hex_digit (c / 256 mod 16);
               hex_digit (c / 16 mod 16); hex_digit (c mod 16)].

Definition is_high_surrogate (c : N) : bool := (0xD800 <=? c) && (c <=? 0xDBFF).
Definition is_low_surrogate (c : N) : bool := (0xDC00 <=? c) && (c <=? 0xDFFF).

Definition quote_unit (c : N) : jsstring :=
  if c =? 0x08 then lit "\b"
  else if c =? 0x09 then lit "\t"
  else if c =? 0x0A then lit "\n"
  else if c =? 0x0C then lit "\f"
  else if c =? 0x0D then lit "\r"
  else if c =? 0x22 then [0x5C; 0x22]
  else if c =? 0x5C then [0x5C; 0x5C]
  else if c <? 0x20 then unicode_escape c
  else if is_high_surrogate c || is_low_surrogate c then unicode_escape c
  else [c].

(** The body of [QuoteJSONString]: a surrogate pair is kept, a lone
    surrogate is escaped. *)
Fixpoint quote_units (s : jsstring) : jsstring :=
  match s with
  | [] => []
  | c :: r =>
      match r with
      | c' :: r' =>
          if is_high_surrogate c && is_low_surrogate c'
          then c :: c' :: quote_units r'
          else quote_unit c ++ quote_units r
      | [] => quote_unit c
      end
  end.

Definition QuoteJSONString (s : jsstring) : jsstring :=
  [0x22] ++ quote_units s ++ [0x22].

Definition is_digit (c : N) : bool := (48 <=? c) && (c <=? 57).

Fixpoint read_digits (s : jsstring) (acc : N) (cnt : Z) : N * Z * jsstring :=
  match s with
  | c :: r =>
      if is_digit c then read_digits r (acc * 10 + (c - 48)) (cnt + 1)%Z
      else (acc, cnt, s)
  | [] => (acc, cnt, [])
  end.

(** An array index is a canonical numeric string below [2^32 - 1]. *)
Definition array_index (k : jsstring) : option N :=
  match read_digits k 0 0 with
  | (n, _, []) =>
      if string_eqb (digits_of_N n) k && (n <=? 4294967294) then Some n else None
  | _ => None
  end.

Fixpoint insert_by_index {A} (i : N) (a : A) (l : list (N * A)) : list (N * A) :=
  match l with
  | [] => [(i, a)]
  | (j, b) :: r =>
      if i <? j then (i, a) :: l else (j, b) :: insert_by_index i a r
  end.

(** [OrdinaryOwnPropertyKeys]: array indices in ascending order, then
    the other keys in creation order. *)
Fixpoint indexed_first {A} (ps : list (jsstring * A))
  : list (N * (jsstring * A)) * list (jsstring * A) :=
  match ps with
  | [] => ([], [])
  | (k, a) :: r =>
      let (ix, others) := indexed_first r in
      match array_index k with
      | Some i => (insert_by_index i (k, a) ix, others)
      | None => (ix, (k, a) :: others)
      end
  end.

Definition own_properties {A} (ps : list (jsstring * A)) : list (jsstring * A) :=
  let (ix, others) := indexed_first ps in map snd ix ++ others.

Definition is_finite (x : number) : bool :=
  match x with
  | S754_zero _ | S754_finite _ _ _ => true
  | _ => false
  end.

(** [SerializeJSONProperty] without replacer and gap; [None] stands for
    [undefined].  A decoded body has no callable [toJSON]. *)
Fixpoint serialize (v : value) : option jsstring :=
  match v with
  | Undefined => None
  | Null => Some (lit "null")
  | Boolean true => Some (lit "true")
  | Boolean false => Some (lit "false")
  | Number x => Some (if is_finite x then Number_toString x else lit "null")
  | String s => Some (QuoteJSONString s)
  | Array l =>
      let parts := map (fun e =>
                     match serialize e with
                     | Some s => s
                     | None => lit "null"
                     end) l in
      Some (lit "[" ++ join (lit ",") parts ++ lit "]")
  | Object ps =>
      let done := map (fun kv => (fst kv, serialize (snd kv))) ps in
      let members := flat_map (fun ks =>
                       match snd ks with
                       | Some s => [QuoteJSONString (fst ks) ++ lit ":" ++ s]
                       | None => []
                       end) (own_properties done) in
      Some (lit "{" ++ join (lit ",") members ++ lit "}")
  end.

(** [JSON.stringify(v)] *)
Definition JSON_stringify (v : value) : value :=
  match serialize v with
  | Some s => String s
  | None => Undefined
  end.

(* ================================================================= *)
(** ** [JSON.parse] *)

Inductive token :=
| TLBrace | TRBrace | TLBracket | TRBracket | TColon | TComma
| TString (s : jsstring)
| TNumber (x : number)
| TTrue | TFalse | TNull.

(** The Number a JSON number lexeme denotes; [None] when the text is not
    a JSON number. *)
Definition number_of_lexeme (s : jsstring) : option number :=
  let (neg, s1) := match s with
                   | 45 :: r => (true, r)
                   | _ => (false, s)
                   end in
  let int_part := match s1 with
                  | 48 :: r => Some (0, r)
                  | c :: _ => if is_digit c
                              then let '(v, _, r) := read_digits s1 0 0 in Some (v, r)
                              else None
                  | [] => None
                  end in
  match int_part with
  | None => None
  | Some (v, r) =>
      let frac := match r with
                  | 46 :: r' =>
                      let '(v', cnt, r'') := read_digits r' v 0 in
                      if (cnt =? 0)%Z then None else Some (v', cnt, r'')
                  | _ => Some (v, 0%Z, r)
                  end in
      match frac with
      | None => None
      | Some (m, cnt, r) =>
          match r with
          | [] => Some (number_of_decimal neg m (- cnt))
          | c :: r' =>
              if (c =? 101) || (c =? 69) then
                let (eneg, r'') := match r' with
                                   | 43 :: t => (false, t)
                                   | 45 :: t => (true, t)
                                   | _ => (false, r')
                                   end in
                match read_digits r'' 0 0 with
                | (e, ecnt, []) =>
                    if (ecnt =? 0)%Z then None
                    else let ez := if eneg then (- Z.of_N e)%Z else Z.of_N e in
                         Some (number_of_decimal neg m (ez - cnt))
                | _ => None
                end
              else None
          end
      end
  end.

Definition token_of_word (w : jsstring) : option token :=
  if string_eqb w (lit "true") then Some TTrue
  else if string_eqb w (lit "false") then Some TFalse
  else if string_eqb w (lit "null") then Some TNull
  else None.

Definition hex_value (c : N) : option N :=
  if is_digit c then Some (c - 48)
  else if (97 <=? c) && (c <=? 102) then Some (c - 87)
  else if (65 <=? c) && (c <=? 70) then Some (c - 55)
  else None.

(** The scanner reads one code unit at a time.  Accumulated text is kept
    reversed. *)
Inductive lex_mode :=
| MStart
| MString (acc : jsstring)
| MEscape (acc : jsstring)
| MHex (acc : jsstring) (more : nat) (v : N)
| MNumber (acc : jsstring)
| MWord (acc : jsstring).

Definition lex_start (toks : list token) (c : N) : option (lex_mode * list token) :=
  if (c =? 0x09) || (c =? 0x0A) || (c =? 0x0D) || (c =? 0x20) then Some (MStart, toks)
  else if c =? 123 then Some (MStart, TLBrace :: toks)
  else if c =? 125 then Some (MStart, TRBrace :: toks)
  else if c =? 91 then Some (MStart, TLBracket :: toks)
  else if c =? 93 then Some (MStart, TRBracket :: toks)
  else if c =? 58 then Some (MStart, TColon :: toks)
  else if c =? 44 then Some (MStart, TComma :: toks)
  else if c =? 0x22 then Some (MString [], toks)
  else if (c =? 45) || is_digit c then Some (MNumber [c], toks)
  else if (97 <=? c) && (c <=? 122) then Some (MWord [c], toks)
  else None.

Definition is_number_unit (c : N) : bool :=
  is_digit c || (c =? 43) || (c =? 45) || (c =? 46) || (c =? 101) || (c =? 69).

(** Close the number or word that the scanner is in, if any. *)
Definition lex_flush (m : lex_mode) (toks : list token) : option (list token) :=
  match m with
  | MStart => Some toks
  | MNumber acc =>
      match number_of_lexeme (rev acc) with
      | Some x => Some (TNumber x :: toks)
      | None => None
      end
  | MWord acc =>
      match token_of_word (rev acc) with
      | Some t => Some (t :: toks)
      | None => None
      end
  | _ => None
  end.

Definition lex_step (m : lex_mode) (toks : list token) (c : N)
  : option (lex_mode * list token) :=
  match m with
  | MStart => lex_start toks c
  | MString acc =>
      if c =? 0x22 then Some (MStart, TString (rev acc) :: toks)
      else if c =? 0x5C then Some (MEscape acc, toks)
      else if c <? 0x20 then None
      else Some (MString (c :: acc), toks)
  | MEscape acc =>
      if (c =? 0x22) || (c =? 0x5C) || (c =? 0x2F) then Some (MString (c :: acc), toks)
      else if c =? 98 then Some (MString (0x08 :: acc), toks)
      else if c =? 102 then Some (MString (0x0C :: acc), toks)
      else if c =? 110 then Some (MString (0x0A :: acc), toks)
      else if c =? 114 then Some (MString (0x0D :: acc), toks)
      else if c =? 116 then Some (MString (0x09 :: acc), toks)
      else if c =? 117 then Some (MHex acc 4 0, toks)
      else None
  | MHex acc more v =>
      match hex_value c with
      | None => None
      | Some d =>
          match more with
          | S (S n) => Some (MHex acc (S n) (v * 16 + d), toks)
          | _ => Some (MString ((v * 16 + d) :: acc), toks)
          end
      end
  | MNumber acc =>
      if is_number_unit c then Some (MNumber (c :: acc), toks)
      else match lex_flush m toks with
           | Some toks' => lex_start toks' c
           | None => None
           end
  | MWord acc =>
      if (97 <=? c) && (c <=? 122) then Some (MWord (c :: acc), toks)
      else match lex_flush m toks with
           | Some toks' => lex_start toks' c
           | None => None
           end
  end.

Fixpoint lex_from (m : lex_mode) (toks : list token) (s : jsstring)
  : option (list token) :=
  match s with
  | [] => lex_flush m toks
  | c :: r =>
      match lex_step m toks c with
      | Some (m', toks') => lex_from m' toks' r
      | None => None
      end
  end.

Definition lex (s : jsstring) : option (list token) :=
  option_map (@rev token) (lex_from MStart [] s).

(** The containers that are still open around the current position. *)
Inductive frame :=
| FArray (done : list value)
| FObject (done : list (jsstring * value)) (key : jsstring).

Inductive parse_state :=
| PValue (stack : list frame)
| PArrayStart (stack : list frame)
| PObjectStart (stack : list frame)
| PKey (done : list (jsstring * value)) (stack : list frame)
| PColon (done : list (jsstring * value)) (key : jsstring) (stack : list frame)
| PInArray (done : list value) (stack : list frame)
| PInObject (done : list (jsstring * value)) (stack : list frame)
| PEnd (v : value).

(** A value is complete: hand it to the innermost open container. *)
Definition complete (v : value) (stack : list frame) : parse_state :=
  match stack with
  | [] => PEnd v
  | FArray done :: stack' => PInArray (v :: done) stack'
  | FObject done key :: stack' => PInObject (define key v done) stack'
  end.

Definition parse_value (stack : list frame) (t : token) : option parse_state :=
  match t with
  | TString s => Some (complete (String s) stack)
  | TNumber x => Some (complete (Number x) stack)
  | TTrue => Some (complete (Boolean true) stack)
  | TFalse => Some (complete (Boolean false) stack)
  | TNull => Some (complete Null stack)
  | TLBracket => Some (PArrayStart stack)
  | TLBrace => Some (PObjectStart stack)
  | _ => None
  end.

Definition parse_step (st : parse_state) (t : token) : option parse_state :=
  match st with
  | PValue stack => parse_value stack t
  | PArrayStart stack =>
      match t with
      | TRBracket => Some (complete (Array []) stack)
      | _ => parse_value (FArray [] :: stack) t
      end
  | PObjectStart stack =>
      match t with
      | TRBrace => Some (complete (Object []) stack)
      | TString k => Some (PColon [] k stack)
      | _ => None
      end
  | PKey done stack =>
      match t with
      | TString k => Some (PColon done k stack)
      | _ => None
      end
  | PColon done key stack =>
      match t with
      | TColon => Some (PValue (FObject done key :: stack))
      | _ => None
      end
  | PInArray done stack =>
      match t with
      | TComma => Some (PValue (FArray done :: stack))
      | TRBracket => Some (complete (Array (rev done)) stack)
      | _ => None
      end
  | PInObject done stack =>
      match t with
      | TComma => Some (PKey done stack)
      | TRBrace => Some (complete (Object done) stack)
      | _ => None
      end
  | PEnd _ => None
  end.

Fixpoint parse_from (st : parse_state) (ts : list token) : option value :=
  match ts with
  | [] => match st with
          | PEnd v => Some v
          | _ => None
          end
  | t :: r =>
      match parse_step st t with
      | Some st' => parse_from st' r
      | None => None
      end
  end.

(** The value that the JSON text [s] denotes, if it is JSON. *)
Definition parse_text (s : jsstring) : option value :=
  match lex s with
  | Some ts => parse_from (PValue []) ts
  | None => None
  end.

(** [JSON.parse(text)]: the argument is converted to a string first; text
    that is not JSON throws a SyntaxError. *)
Definition JSON_parse (text : value) : completion value :=
  s <- ToString text ;;
  match parse_text s with
  | Some v => Return v
  | None => Throw SyntaxError
  end.

(* ================================================================= *)
(** ** The component: data *)

Inductive Sender := user | agent.

(** [type Message]; [error] is optional in the source and read only for
    its truthiness, so an absent [error] is [false] here.  [content] is
    declared a string, but the reply text comes out of an untyped body
    and can be any value. *)
Record Message := {
  id : jsstring;
  content : value;
  sender : Sender;
  timestamp : Z;
  error : bool
}.

Module AGENT_IDS.
Definition conversation : jsstring := lit "68e116d6615699d53b623c87".
Definition summarization : jsstring := lit "68e116e33637bc8ddc9ffb63".
End AGENT_IDS.

Inductive Agent := conversation | summarization.

(** The JSON body of the POST request. *)
Record request := {
  user_id : jsstring;
  agent_id : jsstring;
  session_id : jsstring;
  message : jsstring
}.

Definition request_body (rq : request) : value :=
  JSON_stringify (Object [(lit "user_id", String (user_id rq));
                          (lit "agent_id", String (agent_id rq));
                          (lit "session_id", String (session_id rq));
                          (lit "message", String (message rq))]).

(** How [fetch] settles: it rejects, or it resolves with a status and a
    body text. *)
Inductive fetch_result :=
| Rejected
| Responded (status : N) (body : jsstring).

(** [response.ok] *)
Definition ok (status : N) : bool := (200 <=? status) && (status <=? 299).

(** [response.json()] *)
Definition json (body : jsstring) : completion value :=
  match parse_text body with
  | Some data => Return data
  | None => Throw SyntaxError
  end.

(* ================================================================= *)
(** ** [callAgentAPI] *)

Definition default_reply : value := String (lit "I received your message.").
Definition default_summary : value := String (lit "Summary not available.").

(** [data.response || data.content || JSON.stringify(data)] *)
Definition rawContent (data : value) : completion value :=
  Get data (lit "response") ||| Get data (lit "content")
    ||| Return (JSON_stringify data).

(** The [catch] block: [data.response || data.message || '...'] *)
Definition fallback (data : value) : completion value :=
  Get data (lit "response") ||| Get data (lit "message") ||| Return default_reply.

(** The call up to its [fetch]: the request that is posted. *)
Definition callAgentAPI_request (userId agentId message random : jsstring) : request :=
  {| user_id := userId;
     agent_id := agentId;
     session_id := agentId ++ lit "-" ++ random;
     message := message |}.

(** The [try]/[catch] statement that turns the decoded body into the
    reply. *)
Definition callAgentAPI_parse (agentId : jsstring) (data : value) : completion value :=
  try_catch
    (raw <- rawContent data ;;
     parsed <- JSON_parse raw ;;
     if string_eqb agentId AGENT_IDS.conversation then
       Get parsed (lit "response") ||| Get parsed (lit "message")
         ||| Return default_reply
     else
       (result <- Get parsed (lit "result") ;; GetOptional result (lit "summary"))
         ||| Get parsed (lit "summary") ||| Return default_summary)
    (fallback data).

(** The call from the moment its [fetch] has settled. *)
Definition callAgentAPI_resume (agentId : jsstring) (r : fetch_result) : completion value :=
  match r with
  | Rejected => Throw NetworkError
  | Responded status body =>
      if negb (ok status) then Throw (HttpError status)
      else data <- json body ;; callAgentAPI_parse agentId data
  end.

(* ================================================================= *)
(** ** The component: state and handlers *)

(** A call of [callAgentAPI] and whether its [fetch] is still pending. *)
Record call := {
  posted : request;
  outstanding : bool
}.

(** The [useState] cells of [App], and the calls made so far. *)
Record state := {
  messages : list Message;
  inputValue : jsstring;
  isTyping : bool;
  userId : jsstring;
  currentAgent : Agent;
  calls : list call
}.

Definition initial (userId : jsstring) : state :=
  {| messages := []; inputValue := []; isTyping := false; userId := userId;
     currentAgent := conversation; calls := [] |}.

Definition agentId_of (a : Agent) : jsstring :=
  match a with
  | conversation => AGENT_IDS.conversation
  | summarization => AGENT_IDS.summarization
  end.

(** [handleSendMessage] up to its [await].  [id] and [random] are the two
    results of [generateRandomId], [now] is [new Date()]. *)
Definition handleSendMessage (id : jsstring) (now : Z) (random : jsstring)
  (s : state) : state :=
  match trim (inputValue s) with
  | [] => s
  | _ =>
      let userMessage :=
        {| id := id; content := String (inputValue s); sender := user;
           timestamp := now; error := false |} in
      let agentId := agentId_of (currentAgent s) in
      {| messages := messages s ++ [userMessage];
         inputValue := [];
         isTyping := true;
         userId := userId s;
         currentAgent := currentAgent s;
         calls := calls s ++
           [{| posted := callAgentAPI_request (userId s) agentId (inputValue s) random;
               outstanding := true |}] |}
  end.

Definition error_text : value :=
  String (lit "Sorry, I encountered an error while processing your request. Please try again.").

(** The message that the rest of [handleSendMessage] appends once the
    call has returned or thrown. *)
Definition reply (outcome : completion value) (id : jsstring) (now : Z) : Message :=
  match outcome with
  | Return response =>
      {| id := id; content := response; sender := agent; timestamp := now;
         error := false |}
  | Throw _ =>
      {| id := id; content := error_text; sender := agent; timestamp := now;
         error := true |}
  end.

Fixpoint settle (i : nat) (cs : list call) : list call :=
  match cs, i with
  | [], _ => []
  | c :: r, O => {| posted := posted c; outstanding := false |} :: r
  | c :: r, S j => c :: settle j r
  end.

(** [handleSendMessage] from its [await] on, for the [i]-th call: the
    reply is appended to the thread as it is then, and the typing flag is
    cleared.  A call settles once. *)
Definition handleSendMessage_resume (i : nat) (r : fetch_result)
  (id : jsstring) (now : Z) (s : state) : state :=
  match nth_error (calls s) i with
  | Some c =>
      if outstanding c then
        let outcome := callAgentAPI_resume (agent_id (posted c)) r in
        {| messages := messages s ++ [reply outcome id now];
           inputValue := inputValue s;
           isTyping := false;
           userId := userId s;
           currentAgent := currentAgent s;
           calls := settle i (calls s) |}
      else s
  | None => s
  end.

Definition handleClearChat (s : state) : state :=
  {| messages := []; inputValue := inputValue s; isTyping := false;
     userId := userId s; currentAgent := currentAgent s; calls := calls s |}.

(** [onChange] of the text area *)
Definition setInputValue (text : jsstring) (s : state) : state :=
  {| messages := messages s; inputValue := text; isTyping := isTyping s;
     userId := userId s; currentAgent := currentAgent s; calls := calls s |}.

(** [onClick] of the agent button *)
Definition toggleAgent (s : state) : state :=
  {| messages := messages s; inputValue := inputValue s; isTyping := isTyping s;
     userId := userId s;
     currentAgent := match currentAgent s with
                     | conversation => summarization
                     | summarization => conversation
                     end;
     calls := calls s |}.

(** What can happen to the component, with the values the environment
    supplies.  React renders again after each event, so the handlers
    that serve an event are closed over the state the previous event
    left.  The two [await]s of a call are one event: nothing of the state
    is read between them. *)
Inductive event :=
| Change (text : jsstring)
| Send (id : jsstring) (now : Z) (random : jsstring)
| Settle (i : nat) (r : fetch_result) (id : jsstring) (now : Z)
| Clear
| Toggle.

Definition step (s : state) (e : event) : state :=
  match e with
  | Change text => setInputValue text s
  | Send id now random => handleSendMessage id now random s
  | Settle i r id now => handleSendMessage_resume i r id now s
  | Clear => handleClearChat s
  | Toggle => toggleAgent s
  end.

Definition run (s : state) (es : list event) : state := fold_left step es s.

(** A transport call is outstanding. *)
Definition busy (s : state) : bool := existsb outstanding (calls s).

(** A literal in which the apostrophe stands for the quotation mark. *)
Definition quoted (s : string) : jsstring :=
  map (fun c => if c =? 39 then 34 else c) (lit s).

(* ================================================================= *)
(** ** The reply as the specification words it

    "Read a response field, else a message field, else emit a fixed
    default string": the first candidate that is usable, where a field is
    read off an object and is [undefined] when it is absent or when the
    value read from is no object. *)

Definition field (v : value) (k : jsstring) : value :=
  match v with
  | Object ps =>
      match lookup k ps with
      | Some x => x
      | None => Undefined
      end
  | _ => Undefined
  end.

Fixpoint first_truthy (candidates : list value) (default : value) : value :=
  match candidates with
  | [] => default
  | c :: r => if truthy c then c else first_truthy r default
  end.

Definition reply_of_parsed (agentId : jsstring) (parsed : value) : value :=
  if string_eqb agentId AGENT_IDS.conversation then
    first_truthy [field parsed (lit "response"); field parsed (lit "message")]
      default_reply
  else
    first_truthy [field (field parsed (lit "result")) (lit "summary");
                  field parsed (lit "summary")]
      default_summary.

Definition reply_of_body (data : value) : value :=
  first_truthy [field data (lit "response"); field data (lit "message")]
    default_reply.



(** The transport call fails: the request is rejected or the status is
    not a success status. *)
Definition transport_failed (r : fetch_result) : bool :=
  match r with
  | Rejected => true
  | Responded status _ => negb (ok status)
  end.

(** An event other than the settling of call [i]. *)
Definition leaves_pending (i : nat) (e : event) : Prop :=
  match e with
  | Settle j _ _ _ => j <> i
  | _ => True
  end.

(** The parser has not finished with [undefined]. *)
Definition state_defined (st : parse_state) : Prop :=
  match st with
  | PEnd v => v <> Undefined
  | _ => True
  end.

(* ================================================================= *)
(** ** Example states and bodies *)

(** The user typed "hello" and sent it; the call is pending. *)
Definition sending : state :=
  run (initial (lit "user1@test.com"))
      [Change (lit "hello"); Send (lit "m1") 1000 (lit "r1")].

(** While that call is pending the user typed "again". *)
Definition sending_typed : state := step sending (Change (lit "again")).

Definition body_not_json : jsstring := quoted "{'response': 'not json'}".
Definition body_hi_there : jsstring :=
  quoted "{'response': '{\'response\':\'Hi there\'}'}".
Definition body_short_summary : jsstring :=
  quoted "{'content': '{\'result\':{\'summary\':\'Short summary.\'}}'}".
Definition body_null_content : jsstring := quoted "{'response': 'null'}".

(* ================================================================= *)
(** ** The rest of the component *)

(** [generateRandomUserId], from the result of [generateRandomId]. *)
Definition generateRandomUserId (random : jsstring) : jsstring :=
  lit "user" ++ random ++ lit "@test.com".

(** The fields of a keyboard event that [handleKeyPress] reads. *)
Record KeyboardEvent := {
  key : jsstring;
  shiftKey : bool
}.

(** [handleKeyPress]: the new state, and whether [preventDefault] was
    called. *)
Definition handleKeyPress (e : KeyboardEvent)
  (id : jsstring) (now : Z) (random : jsstring) (s : state) : state * bool :=
  if string_eqb (key e) (lit "Enter") && negb (shiftKey e)
  then (handleSendMessage id now random s, true)
  else (s, false).

(** [disabled={!inputValue.trim()}] of the Send button *)
Definition sendDisabled (s : state) : bool :=
  negb (truthy (String (trim (inputValue s)))).

(** Whether the "Typing" bubble is rendered: it sits in the branch for a
    thread that is not empty, under [isTyping &&]. *)
Definition showsTypingIndicator (s : state) : bool :=
  match messages s with
  | [] => false
  | _ => isTyping s
  end.

(** What the thread of a running component looks like, message by
    message: a user message holds text that is not blank, an error
    message the fixed error text, any other agent message a truthy
    value. *)
Definition well_formed (m : Message) : Prop :=
  match sender m with
  | user => error m = false /\ exists t, content m = String t /\ trim t <> []
  | agent => if error m then content m = error_text else truthy (content m) = true
  end.

(** What the requests of a running component look like. *)
Definition well_addressed (u : jsstring) (rq : request) : Prop :=
  user_id rq = u
  /\ (agent_id rq = AGENT_IDS.conversation \/ agent_id rq = AGENT_IDS.summarization)
  /\ (exists random, session_id rq = agent_id rq ++ lit "-" ++ random)
  /\ trim (message rq) <> [].

(** The call does not yield a reply: the request is rejected, the status
    is not a success, the body is not JSON, or the body is [null]. *)
Definition call_failed (r : fetch_result) : bool :=
  match r with
  | Rejected => true
  | Responded status body =>
      negb (ok status)
      || match parse_text body with
         | None => true
         | Some Null => true
         | Some _ => false
         end
  end.

Definition is_Clear (e : event) : bool :=
  match e with
  | Clear => true
  | _ => false
  end.

Definition from_user (m : Message) : bool :=
  match sender m with
  | user => true
  | agent => false
  end.

Definition settled (c : call) : bool := negb (outstanding c).

(* ================================================================= *)
(** ** Invariants and round trips: what they are stated with *)

Definition is_idle (e : event) : bool :=
  match e with
  | Change _ | Toggle => true
  | _ => false
  end.

Definition typing_sound (s : state) : Prop :=
  isTyping s = true -> busy s = true /\ messages s <> [].

Definition balanced (s : state) : Prop :=
  List.length (filter from_user (messages s)) = List.length (calls s)
  /\ List.length (filter (fun m => negb (from_user m)) (messages s))
     = List.length (filter settled (calls s)).

(** Two calls are outstanding: "hello", then "again". *)
Definition sending_twice : state :=
  handleSendMessage (lit "m2") 2000 (lit "r2") sending_typed.

Definition number_eqb (x y : number) : bool :=
  match x, y with
  | S754_zero a, S754_zero b => Bool.eqb a b
  | S754_infinity a, S754_infinity b => Bool.eqb a b
  | S754_nan, S754_nan => true
  | S754_finite a m e, S754_finite b m' e' =>
      Bool.eqb a b && Pos.eqb m m' && Z.eqb e e'
  | _, _ => false
  end.

(** The text of the finite number [x] is a JSON number that denotes [x]
    again. *)
Definition rereads (x : number) : bool :=
  is_finite x
  && match Number_toString x with
     | [] => false
     | c :: s =>
         ((c =? 45) || is_digit c) && forallb is_number_unit s
         && match number_of_lexeme (c :: s) with
            | Some y => number_eqb x y
            | None => false
            end
     end.

Fixpoint distinct (ks : list jsstring) : bool :=
  match ks with
  | [] => true
  | k :: r => negb (existsb (string_eqb k) r) && distinct r
  end.

(** A value as [JSON.parse] makes them, [undefined] nowhere in it and no
    key twice in an object, whose numbers read back from their text. *)
Fixpoint plain (v : value) : bool :=
  match v with
  | Undefined => false
  | Null | Boolean _ | String _ => true
  | Number x => rereads x
  | Array l => forallb plain l
  | Object ps => forallb (fun kv => plain (snd kv)) ps && distinct (map fst ps)
  end.

(** The value with the properties of each object in the order in which
    they are enumerated. *)
Fixpoint enumerated (v : value) : value :=
  match v with
  | Array l => Array (map enumerated l)
  | Object ps => Object (own_properties (map (fun kv => (fst kv, enumerated (snd kv))) ps))
  | _ => v
  end.

Fixpoint separated (parts : list (list token)) : list token :=
  match parts with
  | [] => []
  | [p] => p
  | p :: r => p ++ TComma :: separated r
  end.

(** The tokens of the text that [JSON.stringify] writes for a value. *)
Fixpoint tokens (v : value) : list token :=
  match v with
  | Undefined => []
  | Null => [TNull]
  | Boolean true => [TTrue]
  | Boolean false => [TFalse]
  | Number x => [TNumber x]
  | String s => [TString s]
  | Array l => TLBracket :: separated (map tokens l) ++ [TRBracket]
  | Object ps =>
      TLBrace
        :: separated (map (fun kt => TString (fst kt) :: TColon :: snd kt)
                        (own_properties (map (fun kv => (fst kv, tokens (snd kv))) ps)))
        ++ [TRBrace]
  end.

(** What can follow a value in JSON text: nothing, a comma or a closing
    bracket or brace. *)
Definition delimited (rest : jsstring) : Prop :=
  match rest with
  | [] => True
  | c :: _ => c = 44 \/ c = 93 \/ c = 125
  end.

Definition part (e : value) : jsstring :=
  match serialize e with
  | Some s => s
  | None => lit "null"
  end.

Definition member (ks : jsstring * option jsstring) : list jsstring :=
  match snd ks with
  | Some s => [QuoteJSONString (fst ks) ++ lit ":" ++ s]
  | None => []
  end.

Definition member_tokens (kt : jsstring * list token) : list token :=
  TString (fst kt) :: TColon :: snd kt.

(** What the scanner makes of the text written for a value. *)
Definition scans (v : value) : Prop :=
  plain v = true ->
  exists t, serialize v = Some t
            /\ forall toks rest, delimited rest ->
                 lex_from MStart toks (t ++ rest)
                 = lex_from MStart (rev (tokens v) ++ toks) rest.

(** What the parser makes of the tokens of a value. *)
Definition parses (v : value) : Prop :=
  plain v = true ->
  forall stack rest,
    parse_from (PValue stack) (tokens v ++ rest)
    = parse_from (complete (enumerated v) stack) rest.

(* ================================================================= *)
(** ** Strings and trimming *)

Lemma trimStart_blank (s : jsstring) :
  forallb isWhiteSpace s = true -> trimStart s = [].
Proof.
  induction s as [|c r IH]; simpl; intros H; [reflexivity|].
  apply andb_true_iff in H as [Hc Hr]. rewrite Hc. now apply IH.
Qed.

Lemma trimStart_empty_blank (s : jsstring) :
  trimStart s = [] -> forallb isWhiteSpace s = true.
Proof.
  induction s as [|c r IH]; simpl; intros H; [reflexivity|].
  destruct (isWhiteSpace c); [now apply IH | discriminate].
Qed.

Lemma trim_blank (s : jsstring) :
  forallb isWhiteSpace s = true -> trim s = [].
Proof.
  intros H. unfold trim. now rewrite (trimStart_blank s H).
Qed.

Lemma trim_empty_blank (s : jsstring) :
  trim s = [] -> forallb isWhiteSpace s = true.
Proof.
  unfold trim, trimEnd. intros H.
  apply trimStart_empty_blank.
  assert (E : trimStart (rev (trimStart s)) = []).
  { rewrite <- (rev_involutive (trimStart (rev (trimStart s)))), H. reflexivity. }
  destruct (trimStart s) as [|c r] eqn:Es; [reflexivity|].
  (* the text left by [trimStart] starts with a unit that is kept *)
  assert (K : isWhiteSpace c = false).
  { clear E H. induction s as [|d t IH]; simpl in Es; [discriminate|].
    destruct (isWhiteSpace d) eqn:Ed; [now apply IH|].
    now injection Es as <- _. }
  apply trimStart_empty_blank in E.
  rewrite forallb_forall in E.
  assert (W : isWhiteSpace c = true) by (apply E, in_rev; rewrite rev_involutive; now left).
  congruence.
Qed.

(* ================================================================= *)
(** ** Property reads and the [||] chains *)

Lemma Get_field (v : value) (k : jsstring) :
  v <> Undefined -> v <> Null -> Get v k = Return (field v k).
Proof.
  destruct v; intros U N; try congruence; try reflexivity.
  simpl. now destruct (lookup k properties).
Qed.

Lemma GetOptional_field (v : value) (k : jsstring) :
  GetOptional v k = Return (field v k).
Proof.
  destruct v; try reflexivity. simpl. now destruct (lookup k properties).
Qed.

Lemma chain_first_truthy (a b d : value) :
  (Return a ||| Return b ||| Return d) = Return (first_truthy [a; b] d).
Proof.
  unfold or_else; simpl.
  destruct (truthy a) eqn:Ea; simpl; [now rewrite Ea|].
  now destruct (truthy b).
Qed.

Lemma first_truthy_truthy (cs : list value) (d : value) :
  truthy d = true -> truthy (first_truthy cs d) = true.
Proof.
  intros Hd. induction cs as [|c r IH]; simpl; [exact Hd|].
  now destruct (truthy c) eqn:Ec.
Qed.

Lemma chain_truthy (a b : completion value) (d v : value) :
  truthy d = true -> (a ||| b ||| Return d) = Return v -> truthy v = true.
Proof.
  intros Hd. unfold or_else, bind.
  destruct a as [x|e]; [|discriminate].
  destruct (truthy x) eqn:Ex.
  - rewrite Ex. now intros [= <-].
  - destruct b as [y|e]; [|discriminate].
    destruct (truthy y) eqn:Ey; now intros [= <-].
Qed.

Lemma rawContent_defined (data raw : value) :
  rawContent data = Return raw -> data <> Undefined /\ data <> Null.
Proof.
  destruct data; simpl; intros H; try discriminate; split; discriminate.
Qed.

Lemma fallback_reply (data : value) :
  data <> Undefined -> data <> Null -> fallback data = Return (reply_of_body data).
Proof.
  intros U N. unfold fallback.
  rewrite !(Get_field data) by assumption. apply chain_first_truthy.
Qed.

(* ================================================================= *)
(** ** [JSON.parse] yields JSON values *)

Lemma complete_defined (v : value) (stack : list frame) :
  v <> Undefined -> state_defined (complete v stack).
Proof.
  intros H. destruct stack as [|[done|done key] stack']; simpl; auto.
Qed.

Lemma parse_step_defined (st st' : parse_state) (t : token) :
  parse_step st t = Some st' -> state_defined st'.
Proof.
  destruct st, t; simpl; intros [= <-];
    solve [ exact I | apply complete_defined; discriminate ].
Qed.

Lemma parse_from_defined (ts : list token) :
  forall st v, state_defined st -> parse_from st ts = Some v -> v <> Undefined.
Proof.
  induction ts as [|t r IH]; intros st v Hst; simpl.
  - destruct st; try discriminate. now intros [= <-].
  - destruct (parse_step st t) as [st'|] eqn:E; [|discriminate].
    apply IH. now apply parse_step_defined in E.
Qed.

Lemma parse_text_defined (s : jsstring) (v : value) :
  parse_text s = Some v -> v <> Undefined.
Proof.
  unfold parse_text. destruct (lex s) as [ts|]; [|discriminate].
  now apply parse_from_defined.
Qed.

Lemma JSON_parse_defined (raw parsed : value) :
  JSON_parse raw = Return parsed -> parsed <> Undefined.
Proof.
  unfold JSON_parse, bind. destruct (ToString raw) as [s|e]; [|discriminate].
  destruct (parse_text s) as [v|] eqn:E; [|discriminate].
  intros [= <-]. now apply parse_text_defined in E.
Qed.


(* ================================================================= *)
(** ** The three ways through [callAgentAPI_parse] *)

(** The content is JSON for a value other than [null]: the fields of the
    parsed value decide. *)
Lemma parsed_reply (agentId : jsstring) (data raw parsed : value) :
  rawContent data = Return raw ->
  JSON_parse raw = Return parsed ->
  parsed <> Null ->
  callAgentAPI_parse agentId data = Return (reply_of_parsed agentId parsed).
Proof.
  intros Hraw Hparsed Hnull.
  pose proof (JSON_parse_defined _ _ Hparsed) as Hdef.
  unfold callAgentAPI_parse, reply_of_parsed.
  rewrite Hraw; simpl. rewrite Hparsed; simpl.
  destruct (string_eqb agentId AGENT_IDS.conversation).
  - rewrite !(Get_field parsed) by assumption.
    now rewrite chain_first_truthy.
  - rewrite !(Get_field parsed) by assumption. simpl.
    rewrite GetOptional_field. now rewrite chain_first_truthy.
Qed.

(** The content is the JSON text [null]: reading a field of it throws and
    the [catch] block answers. *)
Lemma null_reply (agentId : jsstring) (data raw : value) :
  rawContent data = Return raw ->
  JSON_parse raw = Return Null ->
  callAgentAPI_parse agentId data = Return (reply_of_body data).
Proof.
  intros Hraw Hparsed.
  destruct (rawContent_defined _ _ Hraw) as [U N].
  unfold callAgentAPI_parse. rewrite Hraw; simpl. rewrite Hparsed; simpl.
  destruct (string_eqb agentId AGENT_IDS.conversation); simpl;
    now apply fallback_reply.
Qed.

(** The content is not JSON: the [catch] block answers. *)
Lemma unparsed_reply (agentId : jsstring) (data raw : value) (e : exn) :
  rawContent data = Return raw ->
  JSON_parse raw = Throw e ->
  callAgentAPI_parse agentId data = Return (reply_of_body data).
Proof.
  intros Hraw Hparsed.
  destruct (rawContent_defined _ _ Hraw) as [U N].
  unfold callAgentAPI_parse. rewrite Hraw; simpl. rewrite Hparsed; simpl.
  now apply fallback_reply.
Qed.

Lemma rawContent_returns (data : value) :
  data <> Undefined -> data <> Null -> exists raw, rawContent data = Return raw.
Proof.
  intros U N. unfold rawContent. rewrite !(Get_field data) by assumption.
  rewrite chain_first_truthy. eauto.
Qed.

(** A body other than [null] always gets a reply, one of the three. *)
Lemma callAgentAPI_parse_returns (agentId : jsstring) (data : value) :
  data <> Undefined -> data <> Null ->
  callAgentAPI_parse agentId data = Return (reply_of_body data)
  \/ exists parsed, callAgentAPI_parse agentId data
                    = Return (reply_of_parsed agentId parsed).
Proof.
  intros U N. destruct (rawContent_returns data U N) as [raw Hraw].
  destruct (JSON_parse raw) as [parsed|e] eqn:Hp.
  - destruct (parsed) eqn:E;
      try (right; exists parsed; subst parsed;
           apply (parsed_reply _ _ _ _ Hraw Hp); discriminate).
    left. now apply (null_reply _ _ raw).
  - left. now apply (unparsed_reply _ _ raw e).
Qed.

Lemma reply_of_parsed_truthy (agentId : jsstring) (parsed : value) :
  truthy (reply_of_parsed agentId parsed) = true.
Proof.
  unfold reply_of_parsed.
  destruct (string_eqb agentId AGENT_IDS.conversation);
    now apply first_truthy_truthy.
Qed.

Lemma truthy_string_nonempty (v : value) (s : jsstring) :
  truthy v = true -> v = String s -> s <> [].
Proof. intros H -> ->. discriminate. Qed.

(* ================================================================= *)
(** ** The handlers *)

Lemma handleSendMessage_blank (id : jsstring) (now : Z) (random : jsstring) (s : state) :
  trim (inputValue s) = [] -> handleSendMessage id now random s = s.
Proof. intros H. unfold handleSendMessage. now rewrite H. Qed.

Lemma handleSendMessage_sends (id : jsstring) (now : Z) (random : jsstring) (s : state) :
  trim (inputValue s) <> [] ->
  handleSendMessage id now random s =
  {| messages := messages s ++
       [{| id := id; content := String (inputValue s); sender := user;
           timestamp := now; error := false |}];
     inputValue := [];
     isTyping := true;
     userId := userId s;
     currentAgent := currentAgent s;
     calls := calls s ++
       [{| posted := callAgentAPI_request (userId s) (agentId_of (currentAgent s))
                       (inputValue s) random;
           outstanding := true |}] |}.
Proof.
  intros H. unfold handleSendMessage.
  destruct (trim (inputValue s)); [congruence | reflexivity].
Qed.

Lemma handleSendMessage_resume_pending (i : nat) (c : call) (r : fetch_result)
  (id : jsstring) (now : Z) (s : state) :
  nth_error (calls s) i = Some c ->
  outstanding c = true ->
  handleSendMessage_resume i r id now s =
  {| messages := messages s ++
       [reply (callAgentAPI_resume (agent_id (posted c)) r) id now];
     inputValue := inputValue s;
     isTyping := false;
     userId := userId s;
     currentAgent := currentAgent s;
     calls := settle i (calls s) |}.
Proof.
  intros Hc Ho. unfold handleSendMessage_resume. now rewrite Hc, Ho.
Qed.

Lemma transport_failed_throws (agentId : jsstring) (r : fetch_result) :
  transport_failed r = true -> exists e, callAgentAPI_resume agentId r = Throw e.
Proof.
  destruct r as [|status body]; simpl; intros H.
  - now exists NetworkError.
  - rewrite H. now exists (HttpError status).
Qed.

Lemma settle_other (j : nat) (cs : list call) :
  forall i, i <> j -> nth_error (settle j cs) i = nth_error cs i.
Proof.
  revert j. induction cs as [|c r IH]; intros j i Hij; [now destruct j|].
  destruct j as [|j]; destruct i as [|i]; simpl; try reflexivity; try congruence.
  apply IH. congruence.
Qed.

Lemma step_keeps_call (i : nat) (c : call) (s : state) (e : event) :
  leaves_pending i e ->
  nth_error (calls s) i = Some c ->
  nth_error (calls (step s e)) i = Some c.
Proof.
  intros He Hc. destruct e as [text|id now random|j r id now| |]; simpl; try assumption.
  - unfold handleSendMessage. destruct (trim (inputValue s)); [assumption|]. simpl.
    rewrite nth_error_app1; [assumption|].
    apply nth_error_Some. congruence.
  - unfold handleSendMessage_resume.
    destruct (nth_error (calls s) j) as [d|]; [|assumption].
    destruct (outstanding d); [|assumption]. simpl.
    rewrite settle_other; [assumption|]. simpl in He. congruence.
Qed.

Lemma run_keeps_call (i : nat) (c : call) (es : list event) :
  forall s, Forall (leaves_pending i) es ->
  nth_error (calls s) i = Some c ->
  nth_error (calls (run s es)) i = Some c.
Proof.
  induction es as [|e r IH]; intros s Hes Hc; [assumption|].
  inversion Hes as [|? ? He Hr]; subst. simpl.
  apply IH; [assumption|]. now apply step_keeps_call.
Qed.

(* ================================================================= *)
(** ** Submissions while a call is outstanding *)




(* ================================================================= *)
(** ** The reply text *)

(** C2, as stated, fails: the body [{"response": "not json"}] does have a
    top-level "response" field, and the reply is not the default text. *)
Lemma not_json_is_not_default :
  callAgentAPI_resume AGENT_IDS.conversation (Responded 200 body_not_json)
  <> Return default_reply.
Proof. vm_compute. discriminate. Qed.

(** C2, amended: for the conversational agent and the body
    [{"response": "not json"}] the reply is the top-level "response"
    string itself, "not json". *)
Theorem not_json_is_echoed :
  callAgentAPI_resume AGENT_IDS.conversation (Responded 200 body_not_json)
  = Return (String (lit "not json")).
Proof. vm_compute. reflexivity. Qed.

(** C3, as stated, fails: for the summarization agent unparsable content
    gives another text than parsed content without summary. *)
Lemma summarization_defaults_differ :
  callAgentAPI_resume AGENT_IDS.summarization
    (Responded 200 (quoted "{'content': 'not json'}"))
  = Return (String (lit "I received your message."))
  /\ callAgentAPI_resume AGENT_IDS.summarization
       (Responded 200 (quoted "{'content': '{}'}"))
     = Return (String (lit "Summary not available."))
  /\ String (lit "I received your message.") <> String (lit "Summary not available.").
Proof. repeat split; vm_compute; discriminate. Qed.

(** C3, amended: for the summarization agent, content that fails to parse
    under a body without "response" and "message" gives "I received your
    message.", the default of the conversational agent, and content that
    parses but has neither summary field gives "Summary not available.";
    the two texts differ. *)
Theorem summarization_two_defaults (data raw : value) (e : exn)
  (data' raw' parsed : value) :
  rawContent data = Return raw ->
  JSON_parse raw = Throw e ->
  field data (lit "response") = Undefined ->
  field data (lit "message") = Undefined ->
  rawContent data' = Return raw' ->
  JSON_parse raw' = Return parsed ->
  parsed <> Null ->
  field (field parsed (lit "result")) (lit "summary") = Undefined ->
  field parsed (lit "summary") = Undefined ->
  callAgentAPI_parse AGENT_IDS.summarization data = Return default_reply
  /\ callAgentAPI_parse AGENT_IDS.summarization data' = Return default_summary
  /\ default_reply <> default_summary.
Proof.
  intros Hraw Hfail Hr Hm Hraw' Hparsed Hnull Hrs Hs. repeat split.
  - rewrite (unparsed_reply _ _ _ _ Hraw Hfail).
    unfold reply_of_body. now rewrite Hr, Hm.
  - rewrite (parsed_reply _ _ _ _ Hraw' Hparsed Hnull).
    unfold reply_of_parsed. change (string_eqb _ _) with false. cbv iota.
    now rewrite Hrs, Hs.
  - discriminate.
Qed.

Lemma summarization_two_defaults_witness :
  rawContent (Object [(lit "content", String (lit "not json"))])
    = Return (String (lit "not json"))
  /\ JSON_parse (String (lit "not json")) = Throw SyntaxError
  /\ rawContent (Object [(lit "content", String (lit "{}"))])
     = Return (String (lit "{}"))
  /\ JSON_parse (String (lit "{}")) = Return (Object [])
  /\ callAgentAPI_parse AGENT_IDS.summarization
       (Object [(lit "content", String (lit "not json"))]) = Return default_reply
  /\ callAgentAPI_parse AGENT_IDS.summarization
       (Object [(lit "content", String (lit "{}"))]) = Return default_summary.
Proof.
  pose proof (summarization_two_defaults
                (Object [(lit "content", String (lit "not json"))])
                (String (lit "not json")) SyntaxError
                (Object [(lit "content", String (lit "{}"))])
                (String (lit "{}")) (Object [])
                eq_refl eq_refl eq_refl eq_refl eq_refl eq_refl
                ltac:(discriminate)) as T.
  repeat split; try reflexivity; apply T; reflexivity.
Defined.

(** Scenarios A and B of the specification, from the body text on. *)
Example scenario_hi_there :
  callAgentAPI_resume AGENT_IDS.conversation (Responded 200 body_hi_there)
  = Return (String (lit "Hi there")).
Proof. vm_compute. reflexivity. Qed.

Example scenario_short_summary :
  callAgentAPI_resume AGENT_IDS.summarization (Responded 200 body_short_summary)
  = Return (String (lit "Short summary.")).
Proof. vm_compute. reflexivity. Qed.

(** C4, as stated, fails for content that is the JSON text [null]: it
    parses, no field can be read from it, and the reply is neither a
    parsed field nor the default but what the [catch] block finds in the
    body. *)
Lemma null_content_is_echoed :
  JSON_parse (String (lit "null")) = Return Null
  /\ callAgentAPI_resume AGENT_IDS.conversation (Responded 200 body_null_content)
     = Return (String (lit "null"))
  /\ String (lit "null") <> default_reply.
Proof. repeat split; vm_compute; discriminate. Qed.

(** C4, amended: when the extracted content parses as JSON to a value
    other than [null], the reply follows the field order of the agent:
    for the conversational agent the parsed "response", else "message",
    else the default text; for the other agent the nested
    "result"."summary", else the top-level "summary", else its default
    text. *)
Theorem agent_field_order (agentId : jsstring) (data raw parsed : value) :
  rawContent data = Return raw ->
  JSON_parse raw = Return parsed ->
  parsed <> Null ->
  callAgentAPI_parse agentId data = Return (reply_of_parsed agentId parsed).
Proof. exact (parsed_reply agentId data raw parsed). Qed.

Lemma agent_field_order_witness :
  (json body_hi_there
     = Return (Object [(lit "response", String (quoted "{'response':'Hi there'}"))])
   /\ JSON_parse (String (quoted "{'response':'Hi there'}"))
      = Return (Object [(lit "response", String (lit "Hi there"))])
   /\ callAgentAPI_parse AGENT_IDS.conversation
        (Object [(lit "response", String (quoted "{'response':'Hi there'}"))])
      = Return (String (lit "Hi there")))
  /\ (json body_short_summary
      = Return (Object [(lit "content",
                         String (quoted "{'result':{'summary':'Short summary.'}}"))])
      /\ JSON_parse (String (quoted "{'result':{'summary':'Short summary.'}}"))
         = Return (Object [(lit "result",
                            Object [(lit "summary", String (lit "Short summary."))])])
      /\ callAgentAPI_parse AGENT_IDS.summarization
           (Object [(lit "content",
                     String (quoted "{'result':{'summary':'Short summary.'}}"))])
         = Return (String (lit "Short summary."))).
Proof.
  split; (split; [reflexivity|]); (split; [reflexivity|]).
  - exact (agent_field_order AGENT_IDS.conversation
             (Object [(lit "response", String (quoted "{'response':'Hi there'}"))])
             (String (quoted "{'response':'Hi there'}"))
             (Object [(lit "response", String (lit "Hi there"))])
             eq_refl eq_refl ltac:(discriminate)).
  - exact (agent_field_order AGENT_IDS.summarization
             (Object [(lit "content",
                       String (quoted "{'result':{'summary':'Short summary.'}}"))])
             (String (quoted "{'result':{'summary':'Short summary.'}}"))
             (Object [(lit "result",
                       Object [(lit "summary", String (lit "Short summary."))])])
             eq_refl eq_refl ltac:(discriminate)).
Defined.








(* ================================================================= *)
(** ** Failure of the transport *)

(** C5: when the call fails, by a rejected request or a status that is
    not a success, one agent message with the error flag and the fixed
    error text is appended after the messages that were there, and the
    typing flag is cleared. *)
Theorem failure_appends_error_message (s : state) (i : nat) (c : call)
  (r : fetch_result) (id : jsstring) (now : Z) :
  nth_error (calls s) i = Some c ->
  outstanding c = true ->
  transport_failed r = true ->
  messages (handleSendMessage_resume i r id now s)
  = messages s ++
      [{| id := id;
          content := String (lit "Sorry, I encountered an error while processing your request. Please try again.");
          sender := agent; timestamp := now; error := true |}]
  /\ isTyping (handleSendMessage_resume i r id now s) = false.
Proof.
  intros Hc Ho Hr.
  rewrite (handleSendMessage_resume_pending i c r id now s Hc Ho).
  destruct (transport_failed_throws (agent_id (posted c)) r Hr) as [e He].
  rewrite He. split; reflexivity.
Qed.

Lemma failure_appends_error_message_witness :
  nth_error (calls sending) 0
  = Some {| posted := callAgentAPI_request (lit "user1@test.com")
                        AGENT_IDS.conversation (lit "hello") (lit "r1");
            outstanding := true |}
  /\ transport_failed (Responded 500 (lit "Internal Server Error")) = true
  /\ map error (messages (handleSendMessage_resume 0
                            (Responded 500 (lit "Internal Server Error"))
                            (lit "m2") 2000 sending))
     = [false; true]
  /\ isTyping (handleSendMessage_resume 0
                 (Responded 500 (lit "Internal Server Error"))
                 (lit "m2") 2000 sending) = false.
Proof.
  split; [reflexivity|]. split; [reflexivity|].
  destruct (failure_appends_error_message sending 0
              {| posted := callAgentAPI_request (lit "user1@test.com")
                             AGENT_IDS.conversation (lit "hello") (lit "r1");
                 outstanding := true |}
              (Responded 500 (lit "Internal Server Error")) (lit "m2") 2000%Z
              eq_refl eq_refl eq_refl) as [Hm Ht].
  split; [rewrite Hm; reflexivity | exact Ht].
Defined.

(* ================================================================= *)
(** ** Blank input, clearing, late replies, untrimmed text *)

(** C7: a submission of text that is empty or consists of white space
    only leaves the whole state as it is: no message, no call, no typing
    flag. *)
Theorem blank_submission_ignored (s : state)
  (id : jsstring) (now : Z) (random : jsstring) :
  forallb isWhiteSpace (inputValue s) = true ->
  handleSendMessage id now random s = s.
Proof.
  intros H. apply handleSendMessage_blank. now apply trim_blank.
Qed.

Lemma blank_submission_ignored_witness :
  forallb isWhiteSpace (inputValue (step sending (Change [0x20; 0x09; 0x0A; 0xA0]))) = true
  /\ handleSendMessage (lit "m2") 2000 (lit "r2")
       (step sending (Change [0x20; 0x09; 0x0A; 0xA0]))
     = step sending (Change [0x20; 0x09; 0x0A; 0xA0]).
Proof.
  split; [reflexivity|].
  apply (blank_submission_ignored (step sending (Change [0x20; 0x09; 0x0A; 0xA0]))).
  reflexivity.
Defined.

(** C8: clearing the chat, in any state, gives the empty thread and the
    typing flag off. *)
Theorem clear_resets (s : state) :
  messages (step s Clear) = [] /\ isTyping (step s Clear) = false.
Proof. split; reflexivity. Qed.

(** C9: a call that is outstanding when the chat is cleared stays
    outstanding, through the clearing and whatever happens before the
    call settles; when it settles, its reply, the agent's text or the
    error message, is appended to the thread as it is then. *)
Theorem clear_does_not_cancel (s : state) (i : nat) (c : call) (es : list event) :
  nth_error (calls s) i = Some c ->
  outstanding c = true ->
  Forall (leaves_pending i) es ->
  nth_error (calls (run (handleClearChat s) es)) i = Some c
  /\ forall (r : fetch_result) (id : jsstring) (now : Z),
       messages (handleSendMessage_resume i r id now (run (handleClearChat s) es))
       = messages (run (handleClearChat s) es)
           ++ [reply (callAgentAPI_resume (agent_id (posted c)) r) id now].
Proof.
  intros Hc Ho Hes.
  assert (K : nth_error (calls (run (handleClearChat s) es)) i = Some c)
    by (apply run_keeps_call; assumption).
  split; [exact K|]. intros r id now.
  now rewrite (handleSendMessage_resume_pending i c r id now _ K Ho).
Qed.

Lemma clear_does_not_cancel_witness :
  nth_error (calls sending) 0
  = Some {| posted := callAgentAPI_request (lit "user1@test.com")
                        AGENT_IDS.conversation (lit "hello") (lit "r1");
            outstanding := true |}
  /\ Forall (leaves_pending 0) [Toggle; Change (lit "again")]
  /\ messages (handleSendMessage_resume 0 (Responded 200 body_hi_there) (lit "m2") 2000
                 (run (handleClearChat sending) [Toggle; Change (lit "again")]))
     = [{| id := lit "m2"; content := String (lit "Hi there"); sender := agent;
           timestamp := 2000; error := false |}].
Proof.
  split; [reflexivity|]. split; [repeat constructor|].
  destruct (clear_does_not_cancel sending 0
              {| posted := callAgentAPI_request (lit "user1@test.com")
                             AGENT_IDS.conversation (lit "hello") (lit "r1");
                 outstanding := true |}
              [Toggle; Change (lit "again")] eq_refl eq_refl
              ltac:(repeat constructor)) as [_ H].
  rewrite H. reflexivity.
Defined.

(** C10: a submission of text that is not blank stores the text as it was
    typed, white space at its ends included, in the user message and in
    the request; trimming only decides whether the submission goes
    ahead. *)
Theorem untrimmed_text_is_sent (s : state)
  (id : jsstring) (now : Z) (random : jsstring) :
  trim (inputValue s) <> [] ->
  exists (m : Message) (c : call),
    messages (handleSendMessage id now random s) = messages s ++ [m]
    /\ sender m = user
    /\ content m = String (inputValue s)
    /\ calls (handleSendMessage id now random s) = calls s ++ [c]
    /\ outstanding c = true
    /\ message (posted c) = inputValue s.
Proof.
  intros H. rewrite (handleSendMessage_sends id now random s H).
  do 2 eexists. repeat split.
Qed.

Lemma untrimmed_text_is_sent_witness :
  trim (inputValue (step (initial (lit "u")) (Change (lit "  hello ")))) <> []
  /\ exists (m : Message) (c : call),
       messages (handleSendMessage (lit "m1") 1 (lit "r1")
                   (step (initial (lit "u")) (Change (lit "  hello ")))) = [] ++ [m]
       /\ sender m = user
       /\ content m = String (lit "  hello ")
       /\ calls (handleSendMessage (lit "m1") 1 (lit "r1")
                   (step (initial (lit "u")) (Change (lit "  hello ")))) = [] ++ [c]
       /\ outstanding c = true
       /\ message (posted c) = lit "  hello ".
Proof.
  split; [discriminate|].
  apply (untrimmed_text_is_sent (step (initial (lit "u")) (Change (lit "  hello ")))
           (lit "m1") 1%Z (lit "r1")).
  discriminate.
Defined.

(* ================================================================= *)
(** ** When a submission does nothing *)

Lemma string_eqb_eq (a b : jsstring) : string_eqb a b = true <-> a = b.
Proof.
  revert b. induction a as [|x a IH]; intros [|y b]; simpl; split;
    try discriminate; try reflexivity.
  - intros H. apply andb_true_iff in H as [Hx Ha].
    apply N.eqb_eq in Hx. apply IH in Ha. now subst.
  - intros [= -> ->]. rewrite N.eqb_refl. now apply IH.
Qed.

Lemma handleSendMessage_changes (id : jsstring) (now : Z) (random : jsstring) (s : state) :
  trim (inputValue s) <> [] -> handleSendMessage id now random s <> s.
Proof.
  intros H E. rewrite (handleSendMessage_sends id now random s H) in E.
  apply (f_equal (fun x => List.length (messages x))) in E. simpl in E.
  rewrite length_app in E. simpl in E. lia.
Qed.

(** X1: a submission leaves the state as it is exactly when every code
    unit of the input text is white space or a line terminator (the empty
    text included). *)
Theorem submission_ignored_iff_blank (s : state)
  (id : jsstring) (now : Z) (random : jsstring) :
  handleSendMessage id now random s = s
  <-> forallb isWhiteSpace (inputValue s) = true.
Proof.
  split.
  - intros E. apply trim_empty_blank.
    destruct (trim (inputValue s)) as [|c r] eqn:T; [reflexivity|].
    exfalso. apply (handleSendMessage_changes id now random s); [|exact E].
    rewrite T. discriminate.
  - intros H. apply handleSendMessage_blank. now apply trim_blank.
Qed.

(** X2: the Send button is disabled exactly in the states in which
    [handleSendMessage] would do nothing. *)
Theorem send_disabled_iff_ignored (s : state)
  (id : jsstring) (now : Z) (random : jsstring) :
  sendDisabled s = true <-> handleSendMessage id now random s = s.
Proof.
  unfold sendDisabled. split.
  - intros H. apply handleSendMessage_blank.
    destruct (trim (inputValue s)); [reflexivity | discriminate].
  - intros E. destruct (trim (inputValue s)) as [|c r] eqn:T; [reflexivity|].
    exfalso. apply (handleSendMessage_changes id now random s); [|exact E].
    rewrite T. discriminate.
Qed.

(** X3: a key press changes the state exactly when the key is Enter,
    Shift is not held and the input text is not blank; the change is then
    that of [handleSendMessage], and the default action of the key is
    prevented whenever the key is Enter without Shift, blank text or
    not. *)
Theorem key_press_submits (e : KeyboardEvent)
  (id : jsstring) (now : Z) (random : jsstring) (s : state) :
  (fst (handleKeyPress e id now random s) <> s
   <-> key e = lit "Enter" /\ shiftKey e = false /\ trim (inputValue s) <> [])
  /\ (fst (handleKeyPress e id now random s) <> s ->
      fst (handleKeyPress e id now random s) = handleSendMessage id now random s)
  /\ (snd (handleKeyPress e id now random s) = true
      <-> key e = lit "Enter" /\ shiftKey e = false).
Proof.
  unfold handleKeyPress.
  destruct (string_eqb (key e) (lit "Enter")) eqn:K.
  - apply string_eqb_eq in K. destruct (shiftKey e) eqn:Sh; simpl.
    + split; [split|split; [|split]].
      * intros H. now contradiction H.
      * intros [_ [H _]]. discriminate.
      * intros H. now contradiction H.
      * discriminate.
      * intros [_ H]. discriminate.
    + split; [split|split; [|split]].
      * intros H. repeat split; try assumption.
        intros T. apply H. now apply handleSendMessage_blank.
      * intros [_ [_ T]]. now apply handleSendMessage_changes.
      * reflexivity.
      * now split.
      * reflexivity.
  - assert (N : key e <> lit "Enter").
    { intros E. apply string_eqb_eq in E. congruence. }
    simpl. split; [split|split; [|split]].
    + intros H. now contradiction H.
    + intros [E _]. contradiction.
    + intros H. now contradiction H.
    + discriminate.
    + intros [E _]. contradiction.
Qed.

(* ================================================================= *)
(** ** When a call fails *)

Lemma Null_dec (v : value) : {v = Null} + {v <> Null}.
Proof. destruct v; (now left) || (right; discriminate). Qed.

Lemma callAgentAPI_parse_Null (agentId : jsstring) :
  callAgentAPI_parse agentId Null = Throw TypeError.
Proof. reflexivity. Qed.

Lemma callAgentAPI_parse_defined (agentId : jsstring) (data : value) :
  data <> Undefined -> data <> Null ->
  exists v, callAgentAPI_parse agentId data = Return v /\ truthy v = true.
Proof.
  intros U N.
  destruct (callAgentAPI_parse_returns agentId data U N) as [E|[parsed E]];
    rewrite E; eexists; (split; [reflexivity|]).
  - now apply first_truthy_truthy.
  - apply reply_of_parsed_truthy.
Qed.

Lemma callAgentAPI_parse_truthy (agentId : jsstring) (data v : value) :
  data <> Undefined ->
  callAgentAPI_parse agentId data = Return v -> truthy v = true.
Proof.
  intros U H. destruct (Null_dec data) as [->|N]; [discriminate H|].
  destruct (callAgentAPI_parse_defined agentId data U N) as [w [E T]].
  congruence.
Qed.

Lemma callAgentAPI_resume_throws_iff (agentId : jsstring) (r : fetch_result) :
  (exists e, callAgentAPI_resume agentId r = Throw e) <-> call_failed r = true.
Proof.
  destruct r as [|status body]; simpl.
  - split; [reflexivity | intros _; now exists NetworkError].
  - destruct (ok status); simpl.
    + unfold json. destruct (parse_text body) as [data|] eqn:P; simpl.
      * pose proof (parse_text_defined _ _ P) as U.
        destruct (Null_dec data) as [->|N].
        -- split; [reflexivity | intros _; now exists TypeError].
        -- destruct (callAgentAPI_parse_defined agentId data U N) as [w [E _]].
           rewrite E. split; [intros [e He]; discriminate|].
           destruct data; congruence.
      * split; [reflexivity | intros _; now exists SyntaxError].
    + split; [reflexivity | intros _; now exists (HttpError status)].
Qed.

Lemma callAgentAPI_resume_truthy (agentId : jsstring) (r : fetch_result) (v : value) :
  callAgentAPI_resume agentId r = Return v -> truthy v = true.
Proof.
  destruct r as [|status body]; simpl; [discriminate|].
  destruct (ok status); simpl; [|discriminate].
  unfold json. destruct (parse_text body) as [data|] eqn:P; simpl; [|discriminate].
  apply callAgentAPI_parse_truthy. now apply parse_text_defined in P.
Qed.

(** X4: when a pending call settles, the message appended is the error
    message exactly when the request was rejected, the status was not a
    success, the body was not JSON or the body was [null]; in every other
    case it is an agent message without error flag. *)
Theorem error_message_iff_call_failed (s : state) (i : nat) (c : call)
  (r : fetch_result) (id : jsstring) (now : Z) :
  nth_error (calls s) i = Some c ->
  outstanding c = true ->
  exists m,
    messages (handleSendMessage_resume i r id now s) = messages s ++ [m]
    /\ sender m = agent
    /\ error m = call_failed r
    /\ (call_failed r = true -> content m = error_text).
Proof.
  intros Hc Ho. rewrite (handleSendMessage_resume_pending i c r id now s Hc Ho).
  eexists. split; [reflexivity|]. simpl.
  pose proof (callAgentAPI_resume_throws_iff (agent_id (posted c)) r) as T.
  destruct (callAgentAPI_resume (agent_id (posted c)) r) as [v|e]; simpl.
  - destruct (call_failed r) eqn:F.
    + destruct T as [_ T]. destruct (T eq_refl) as [e He]. discriminate.
    + repeat split. discriminate.
  - destruct T as [T _]. rewrite T by (now exists e). repeat split.
Qed.

Lemma error_message_iff_call_failed_witness :
  nth_error (calls sending) 0
  = Some {| posted := callAgentAPI_request (lit "user1@test.com")
                        AGENT_IDS.conversation (lit "hello") (lit "r1");
            outstanding := true |}
  /\ call_failed (Responded 200 (lit "<html>Bad gateway</html>")) = true
  /\ exists m,
       messages (handleSendMessage_resume 0
                   (Responded 200 (lit "<html>Bad gateway</html>"))
                   (lit "m2") 2000 sending) = messages sending ++ [m]
       /\ sender m = agent
       /\ error m = true.
Proof.
  split; [reflexivity|]. split; [reflexivity|].
  destruct (error_message_iff_call_failed sending 0
              {| posted := callAgentAPI_request (lit "user1@test.com")
                             AGENT_IDS.conversation (lit "hello") (lit "r1");
                 outstanding := true |}
              (Responded 200 (lit "<html>Bad gateway</html>")) (lit "m2") 2000%Z
              eq_refl eq_refl) as [m [Hm [Hs [He _]]]].
  exists m. repeat split; assumption.
Defined.

(* ================================================================= *)
(** ** What every run keeps *)

Lemma step_well_formed (s : state) (e : event) :
  Forall well_formed (messages s) -> Forall well_formed (messages (step s e)).
Proof.
  intros H. destruct e as [text|id now random|i r id now| |]; simpl; try assumption.
  - unfold handleSendMessage. destruct (trim (inputValue s)) eqn:T; [assumption|].
    simpl. apply Forall_app. split; [assumption|]. constructor; [|constructor].
    unfold well_formed; simpl. split; [reflexivity|].
    exists (inputValue s). split; [reflexivity|]. rewrite T. discriminate.
  - unfold handleSendMessage_resume.
    destruct (nth_error (calls s) i) as [c|]; [|assumption].
    destruct (outstanding c); [|assumption]. simpl.
    apply Forall_app. split; [assumption|]. constructor; [|constructor].
    destruct (callAgentAPI_resume (agent_id (posted c)) r) as [v|x] eqn:E;
      unfold well_formed; simpl; [|reflexivity].
    now apply callAgentAPI_resume_truthy in E.
  - constructor.
Qed.

Lemma run_well_formed (es : list event) :
  forall s, Forall well_formed (messages s) ->
  Forall well_formed (messages (run s es)).
Proof.
  induction es as [|e r IH]; intros s H; [assumption|].
  simpl. apply IH. now apply step_well_formed.
Qed.

(** X5: whatever happens to the component, every message of the thread
    is a user message holding text that is not blank, an error message
    holding the fixed error text, or an agent message holding a truthy
    value (never the empty string). *)
Theorem thread_well_formed (u : jsstring) (es : list event) :
  Forall well_formed (messages (run (initial u) es)).
Proof. apply run_well_formed. constructor. Qed.

Lemma settle_posted (i : nat) (cs : list call) :
  map posted (settle i cs) = map posted cs.
Proof.
  revert i. induction cs as [|c r IH]; intros [|i]; simpl; try reflexivity.
  now rewrite IH.
Qed.

Lemma step_userId (s : state) (e : event) : userId (step s e) = userId s.
Proof.
  destruct e as [text|id now random|i r id now| |]; simpl; try reflexivity.
  - unfold handleSendMessage. now destruct (trim (inputValue s)).
  - unfold handleSendMessage_resume.
    destruct (nth_error (calls s) i) as [c|]; [|reflexivity].
    now destruct (outstanding c).
Qed.

Lemma step_well_addressed (u : jsstring) (s : state) (e : event) :
  userId s = u ->
  Forall (well_addressed u) (map posted (calls s)) ->
  Forall (well_addressed u) (map posted (calls (step s e))).
Proof.
  intros Hu H. destruct e as [text|id now random|i r id now| |]; simpl; try assumption.
  - unfold handleSendMessage. destruct (trim (inputValue s)) eqn:T; [assumption|].
    simpl. rewrite map_app. apply Forall_app. split; [assumption|].
    constructor; [|constructor]. unfold well_addressed; simpl.
    split; [assumption|]. split; [destruct (currentAgent s); simpl; auto|].
    split; [now exists random|]. rewrite T. discriminate.
  - unfold handleSendMessage_resume.
    destruct (nth_error (calls s) i) as [c|]; [|assumption].
    destruct (outstanding c); [|assumption]. simpl. now rewrite settle_posted.
Qed.

Lemma run_well_addressed (u : jsstring) (es : list event) :
  forall s, userId s = u ->
  Forall (well_addressed u) (map posted (calls s)) ->
  Forall (well_addressed u) (map posted (calls (run s es))).
Proof.
  induction es as [|e r IH]; intros s Hu H; [assumption|].
  simpl. apply IH; [now rewrite step_userId | now apply step_well_addressed].
Qed.

(** X6: whatever happens to the component, every request it has posted
    carries the user identifier made when the component was loaded, one
    of the two agent identifiers, a session identifier that is this agent
    identifier, a hyphen and a random part, and a message text that is
    not blank. *)
Theorem requests_well_addressed (random : jsstring) (es : list event) :
  Forall (well_addressed (generateRandomUserId random))
    (map posted (calls (run (initial (generateRandomUserId random)) es))).
Proof. apply run_well_addressed; [reflexivity | constructor]. Qed.

Lemma step_typing_sound (s : state) (e : event) :
  typing_sound s -> typing_sound (step s e).
Proof.
  unfold typing_sound. intros H.
  destruct e as [text|id now random|i r id now| |]; simpl; try assumption;
    try discriminate.
  - unfold handleSendMessage. destruct (trim (inputValue s)); [assumption|].
    simpl. intros _. split.
    + unfold busy; simpl. rewrite existsb_app; simpl. apply orb_true_r.
    + intros E. now apply app_eq_nil in E as [_ E].
  - unfold handleSendMessage_resume.
    destruct (nth_error (calls s) i) as [c|]; [|assumption].
    destruct (outstanding c); [|assumption]. simpl. discriminate.
Qed.

Lemma run_typing_sound (es : list event) :
  forall s, typing_sound s -> typing_sound (run s es).
Proof.
  induction es as [|e r IH]; intros s H; [assumption|].
  simpl. apply IH. now apply step_typing_sound.
Qed.

(** X7: whatever happens to the component, the typing flag is set only
    while a transport call is outstanding. *)
Theorem typing_only_while_busy (u : jsstring) (es : list event) :
  isTyping (run (initial u) es) = true -> busy (run (initial u) es) = true.
Proof.
  intros H. apply (run_typing_sound es (initial u)); [discriminate | exact H].
Qed.

Lemma typing_only_while_busy_witness :
  isTyping (run (initial (lit "user1@test.com"))
                [Change (lit "hello"); Send (lit "m1") 1000 (lit "r1")]) = true
  /\ busy (run (initial (lit "user1@test.com"))
               [Change (lit "hello"); Send (lit "m1") 1000 (lit "r1")]) = true.
Proof.
  split; [reflexivity|].
  apply (typing_only_while_busy (lit "user1@test.com")
           [Change (lit "hello"); Send (lit "m1") 1000 (lit "r1")]).
  reflexivity.
Defined.

(** X8: whatever happens to the component, the "Typing" bubble, which is
    rendered only in the branch for a thread that is not empty, is shown
    whenever the typing flag is set: the flag is never set over an empty
    thread. *)
Theorem typing_indicator_follows_flag (u : jsstring) (es : list event) :
  showsTypingIndicator (run (initial u) es) = isTyping (run (initial u) es).
Proof.
  unfold showsTypingIndicator.
  pose proof (run_typing_sound es (initial u)) as H. unfold typing_sound in H.
  destruct (messages (run (initial u) es)) eqn:M; [|reflexivity].
  destruct (isTyping (run (initial u) es)); [|reflexivity].
  destruct H as [_ H]; [discriminate | reflexivity | now contradiction H].
Qed.

Lemma busy_witness (cs : list call) (j : nat) (c : call) :
  nth_error cs j = Some c -> outstanding c = true -> existsb outstanding cs = true.
Proof.
  intros Hj Ho. apply existsb_exists. exists c. split; [|assumption].
  now apply nth_error_In in Hj.
Qed.

(** X9: the typing flag does not count calls.  With two calls
    outstanding, the first to settle clears the flag although the other
    is still outstanding. *)
Theorem typing_flag_cleared_by_first_reply (s : state) (i j : nat) (ci cj : call)
  (r : fetch_result) (id : jsstring) (now : Z) :
  i <> j ->
  nth_error (calls s) i = Some ci -> outstanding ci = true ->
  nth_error (calls s) j = Some cj -> outstanding cj = true ->
  isTyping (handleSendMessage_resume i r id now s) = false
  /\ busy (handleSendMessage_resume i r id now s) = true.
Proof.
  intros Hij Hi Hoi Hj Hoj.
  rewrite (handleSendMessage_resume_pending i ci r id now s Hi Hoi).
  split; [reflexivity|]. unfold busy; simpl.
  apply (busy_witness _ j cj); [|assumption].
  rewrite settle_other; [assumption | congruence].
Qed.

Lemma typing_flag_cleared_by_first_reply_witness :
  map outstanding (calls sending_twice) = [true; true]
  /\ isTyping (handleSendMessage_resume 1 (Responded 200 body_hi_there)
                 (lit "m3") 3000 sending_twice) = false
  /\ busy (handleSendMessage_resume 1 (Responded 200 body_hi_there)
             (lit "m3") 3000 sending_twice) = true.
Proof.
  split; [reflexivity|].
  apply (typing_flag_cleared_by_first_reply sending_twice 1 0
           {| posted := callAgentAPI_request (lit "user1@test.com")
                          AGENT_IDS.conversation (lit "again") (lit "r2");
              outstanding := true |}
           {| posted := callAgentAPI_request (lit "user1@test.com")
                          AGENT_IDS.conversation (lit "hello") (lit "r1");
              outstanding := true |}
           (Responded 200 body_hi_there) (lit "m3") 3000%Z);
    (discriminate || reflexivity).
Defined.

Lemma step_appends (s : state) (e : event) :
  is_Clear e = false -> exists l, messages (step s e) = messages s ++ l.
Proof.
  intros H. destruct e as [text|id now random|i r id now| |]; simpl;
    try discriminate; try (exists []; now rewrite app_nil_r).
  - unfold handleSendMessage. destruct (trim (inputValue s)).
    + exists []. now rewrite app_nil_r.
    + eexists. reflexivity.
  - unfold handleSendMessage_resume.
    destruct (nth_error (calls s) i) as [c|]; [|exists []; now rewrite app_nil_r].
    destruct (outstanding c); [|exists []; now rewrite app_nil_r].
    eexists. reflexivity.
Qed.

(** X10: as long as the chat is not cleared the thread only grows at its
    end: no event removes, reorders or alters a message that is there. *)
Theorem thread_append_only (s : state) (es : list event) :
  forallb (fun e => negb (is_Clear e)) es = true ->
  exists l, messages (run s es) = messages s ++ l.
Proof.
  revert s. induction es as [|e r IH]; intros s H; simpl.
  - exists []. now rewrite app_nil_r.
  - simpl in H. apply andb_true_iff in H as [He Hr].
    apply negb_true_iff in He.
    destruct (step_appends s e He) as [l1 E1].
    destruct (IH (step s e) Hr) as [l2 E2].
    exists (l1 ++ l2). now rewrite E2, E1, app_assoc.
Qed.

Lemma thread_append_only_witness :
  forallb (fun e => negb (is_Clear e))
    [Toggle; Settle 0 Rejected (lit "m2") 2000; Change (lit "x")] = true
  /\ exists l, messages (run sending [Toggle; Settle 0 Rejected (lit "m2") 2000;
                                      Change (lit "x")])
               = messages sending ++ l.
Proof.
  split; [reflexivity|].
  apply (thread_append_only sending
           [Toggle; Settle 0 Rejected (lit "m2") 2000%Z; Change (lit "x")]).
  reflexivity.
Defined.

Lemma step_posted (s : state) (e : event) :
  exists l, map posted (calls (step s e)) = map posted (calls s) ++ l.
Proof.
  destruct e as [text|id now random|i r id now| |]; simpl;
    try (exists []; now rewrite app_nil_r).
  - unfold handleSendMessage. destruct (trim (inputValue s)).
    + exists []. now rewrite app_nil_r.
    + simpl. rewrite map_app. eexists. reflexivity.
  - unfold handleSendMessage_resume.
    destruct (nth_error (calls s) i) as [c|]; [|exists []; now rewrite app_nil_r].
    destruct (outstanding c); [|exists []; now rewrite app_nil_r].
    simpl. rewrite settle_posted. exists []. now rewrite app_nil_r.
Qed.

(** X11: the requests made are never withdrawn or altered, whatever
    happens afterwards, clearing the chat included: the requests posted
    so far stay a prefix of the requests posted later. *)
Theorem requests_append_only (s : state) (es : list event) :
  exists l, map posted (calls (run s es)) = map posted (calls s) ++ l.
Proof.
  revert s. induction es as [|e r IH]; intros s; simpl.
  - exists []. now rewrite app_nil_r.
  - destruct (step_posted s e) as [l1 E1].
    destruct (IH (step s e)) as [l2 E2].
    exists (l1 ++ l2). now rewrite E2, E1, app_assoc.
Qed.

Lemma settle_length (i : nat) (cs : list call) :
  List.length (settle i cs) = List.length cs.
Proof.
  revert i. induction cs as [|c r IH]; intros [|i]; simpl; try reflexivity.
  now rewrite IH.
Qed.

Lemma settle_counts (cs : list call) :
  forall i c, nth_error cs i = Some c -> outstanding c = true ->
  List.length (filter settled (settle i cs)) = S (List.length (filter settled cs)).
Proof.
  induction cs as [|d r IH]; intros [|i] c Hc Ho; simpl in *; try discriminate.
  - injection Hc as ->. unfold settled; simpl. now rewrite Ho.
  - destruct (settled d); simpl; now rewrite (IH i c Hc Ho).
Qed.

Lemma step_balanced (s : state) (e : event) :
  is_Clear e = false -> balanced s -> balanced (step s e).
Proof.
  unfold balanced. intros He [Hu Ha].
  destruct e as [text|id now random|i r id now| |]; simpl;
    try discriminate; try (split; assumption).
  - unfold handleSendMessage. destruct (trim (inputValue s)); [split; assumption|].
    simpl. rewrite !filter_app, !length_app. simpl.
    rewrite Hu, Ha. split; lia.
  - unfold handleSendMessage_resume.
    destruct (nth_error (calls s) i) as [c|] eqn:Hc; [|split; assumption].
    destruct (outstanding c) eqn:Ho; [|split; assumption]. simpl.
    rewrite !filter_app, !length_app, settle_length, (settle_counts _ i c Hc Ho).
    assert (F : from_user (reply (callAgentAPI_resume (agent_id (posted c)) r) id now)
                = false)
      by now destruct (callAgentAPI_resume (agent_id (posted c)) r).
    simpl. rewrite F. simpl. split; lia.
Qed.

Lemma run_balanced (es : list event) :
  forall s, forallb (fun e => negb (is_Clear e)) es = true ->
  balanced s -> balanced (run s es).
Proof.
  induction es as [|e r IH]; intros s H B; [assumption|].
  simpl in H. apply andb_true_iff in H as [He Hr]. apply negb_true_iff in He.
  simpl. apply IH; [assumption | now apply step_balanced].
Qed.

Lemma all_settled (cs : list call) :
  existsb outstanding cs = false -> filter settled cs = cs.
Proof.
  induction cs as [|c r IH]; simpl; [reflexivity|].
  intros H. apply orb_false_iff in H as [Hc Hr].
  unfold settled at 1. rewrite Hc. simpl. now rewrite IH.
Qed.

(** X12: in a session in which the chat is never cleared, the thread has
    one user message for each call made and one agent message for each
    call that has settled; so once no call is outstanding every user
    message has got its reply, the agent's text or the error message. *)
Theorem every_turn_answered (u : jsstring) (es : list event) :
  forallb (fun e => negb (is_Clear e)) es = true ->
  List.length (filter from_user (messages (run (initial u) es)))
  = List.length (calls (run (initial u) es))
  /\ List.length (filter (fun m => negb (from_user m)) (messages (run (initial u) es)))
     = List.length (filter settled (calls (run (initial u) es)))
  /\ (busy (run (initial u) es) = false ->
      List.length (filter (fun m => negb (from_user m)) (messages (run (initial u) es)))
      = List.length (filter from_user (messages (run (initial u) es)))).
Proof.
  intros H.
  destruct (run_balanced es (initial u) H) as [Hu Ha]; [split; reflexivity|].
  split; [exact Hu|]. split; [exact Ha|].
  intros B. rewrite Ha, Hu. unfold busy in B. now rewrite (all_settled _ B).
Qed.

Lemma every_turn_answered_witness :
  forallb (fun e => negb (is_Clear e))
    [Change (lit "hello"); Send (lit "m1") 1000 (lit "r1");
     Change (lit "again"); Send (lit "m2") 2000 (lit "r2");
     Settle 1 Rejected (lit "m3") 3000;
     Settle 0 (Responded 200 body_hi_there) (lit "m4") 4000] = true
  /\ List.length (filter from_user (messages (run (initial (lit "u"))
       [Change (lit "hello"); Send (lit "m1") 1000 (lit "r1");
        Change (lit "again"); Send (lit "m2") 2000 (lit "r2");
        Settle 1 Rejected (lit "m3") 3000;
        Settle 0 (Responded 200 body_hi_there) (lit "m4") 4000]))) = 2%nat.
Proof.
  split; [reflexivity|].
  destruct (every_turn_answered (lit "u")
              [Change (lit "hello"); Send (lit "m1") 1000%Z (lit "r1");
               Change (lit "again"); Send (lit "m2") 2000%Z (lit "r2");
               Settle 1 Rejected (lit "m3") 3000%Z;
               Settle 0 (Responded 200 body_hi_there) (lit "m4") 4000%Z]
              eq_refl) as [H _].
  rewrite H. reflexivity.
Defined.

(* ================================================================= *)
(** ** Exchanges *)

Lemma run_idle (es : list event) :
  forall s, forallb is_idle es = true ->
  messages (run s es) = messages s /\ calls (run s es) = calls s
  /\ isTyping (run s es) = isTyping s.
Proof.
  induction es as [|e r IH]; intros s H; [now repeat split|].
  simpl in H. apply andb_true_iff in H as [He Hr]. simpl.
  destruct (IH (step s e) Hr) as [Hm [Hc Ht]]. rewrite Hm, Hc, Ht.
  destruct e; try discriminate; now repeat split.
Qed.

Lemma nth_error_last {A} (l : list A) (a : A) :
  nth_error (l ++ [a]) (List.length l) = Some a.
Proof.
  rewrite nth_error_app2 by lia. now rewrite Nat.sub_diag.
Qed.

(** X13: an exchange.  A text that is not blank is sent; while the call
    is pending the user types and switches the agent at will; the call
    settles.  The thread has then grown by the user message with the text
    as typed and one agent message, read from the body by the rules of
    the agent that was selected when the text was sent, and the typing
    flag is off. *)
Theorem exchange (s : state) (id : jsstring) (now : Z) (random : jsstring)
  (es : list event) (r : fetch_result) (id' : jsstring) (now' : Z) :
  trim (inputValue s) <> [] ->
  forallb is_idle es = true ->
  messages (run s (Send id now random :: es
                     ++ [Settle (List.length (calls s)) r id' now']))
  = messages s ++
      [{| id := id; content := String (inputValue s); sender := user;
          timestamp := now; error := false |};
       reply (callAgentAPI_resume (agentId_of (currentAgent s)) r) id' now']
  /\ isTyping (run s (Send id now random :: es
                        ++ [Settle (List.length (calls s)) r id' now'])) = false.
Proof.
  intros Ht Hes. unfold run. cbn [fold_left]. rewrite fold_left_app.
  cbn [fold_left step].
  fold (run (handleSendMessage id now random s) es).
  pose proof (handleSendMessage_sends id now random s Ht) as E.
  destruct (run_idle es (handleSendMessage id now random s) Hes) as [Hm [Hc _]].
  assert (Em : messages (handleSendMessage id now random s)
               = messages s ++
                   [{| id := id; content := String (inputValue s); sender := user;
                       timestamp := now; error := false |}])
    by now rewrite E.
  assert (Ec : calls (handleSendMessage id now random s)
               = calls s ++
                   [{| posted := callAgentAPI_request (userId s)
                                   (agentId_of (currentAgent s)) (inputValue s) random;
                       outstanding := true |}])
    by now rewrite E.
  erewrite handleSendMessage_resume_pending;
    [| rewrite Hc, Ec; apply nth_error_last | reflexivity].
  simpl. rewrite Hm, Em, <- app_assoc. split; reflexivity.
Qed.

Lemma exchange_witness :
  trim (inputValue (step (initial (lit "u")) (Change (lit "sum up")))) <> []
  /\ forallb is_idle [Toggle; Change (lit "next")] = true
  /\ map content
       (messages (run (step (initial (lit "u")) (Change (lit "sum up")))
                    (Send (lit "m1") 1 (lit "r1") :: [Toggle; Change (lit "next")]
                       ++ [Settle 0 (Responded 200 (quoted "{'content': '{}'}"))
                             (lit "m2") 2])))
     = [String (lit "sum up"); String (lit "I received your message.")].
Proof.
  split; [discriminate|]. split; [reflexivity|].
  destruct (exchange (step (initial (lit "u")) (Change (lit "sum up")))
              (lit "m1") 1%Z (lit "r1") [Toggle; Change (lit "next")]
              (Responded 200 (quoted "{'content': '{}'}")) (lit "m2") 2%Z
              ltac:(discriminate) eq_refl) as [H _].
  exact (f_equal (map content) H).
Defined.

(** X14: replies come in the order in which the calls settle, not in the
    order in which the texts were sent: of two outstanding calls, the one
    that settles first has its reply first in the thread. *)
Theorem replies_in_settling_order (s : state) (i j : nat) (ci cj : call)
  (ri rj : fetch_result) (idi idj : jsstring) (nowi nowj : Z) :
  i <> j ->
  nth_error (calls s) i = Some ci -> outstanding ci = true ->
  nth_error (calls s) j = Some cj -> outstanding cj = true ->
  messages (handleSendMessage_resume i ri idi nowi
              (handleSendMessage_resume j rj idj nowj s))
  = messages s ++
      [reply (callAgentAPI_resume (agent_id (posted cj)) rj) idj nowj;
       reply (callAgentAPI_resume (agent_id (posted ci)) ri) idi nowi].
Proof.
  intros Hij Hi Hoi Hj Hoj.
  rewrite (handleSendMessage_resume_pending j cj rj idj nowj s Hj Hoj).
  erewrite handleSendMessage_resume_pending;
    [| simpl; rewrite settle_other; [exact Hi | exact Hij] | exact Hoi].
  simpl. now rewrite <- app_assoc.
Qed.

Lemma replies_in_settling_order_witness :
  map outstanding (calls sending_twice) = [true; true]
  /\ map content
       (messages (handleSendMessage_resume 0 (Responded 200 body_hi_there) (lit "m4") 4000
                    (handleSendMessage_resume 1 (Responded 200 body_not_json)
                       (lit "m3") 3000 sending_twice)))
     = [String (lit "hello"); String (lit "again");
        String (lit "not json"); String (lit "Hi there")].
Proof.
  split; [reflexivity|].
  rewrite (replies_in_settling_order sending_twice 0 1
             {| posted := callAgentAPI_request (lit "user1@test.com")
                            AGENT_IDS.conversation (lit "hello") (lit "r1");
                outstanding := true |}
             {| posted := callAgentAPI_request (lit "user1@test.com")
                            AGENT_IDS.conversation (lit "again") (lit "r2");
                outstanding := true |}
             (Responded 200 body_hi_there) (Responded 200 body_not_json)
             (lit "m4") (lit "m3") 4000%Z 3000%Z
             ltac:(discriminate) eq_refl eq_refl eq_refl eq_refl).
  reflexivity.
Defined.

(* ================================================================= *)
(** ** Which field of the body decides *)

Lemma truthy_field_object (data : value) (k : jsstring) :
  truthy (field data k) = true -> data <> Undefined /\ data <> Null.
Proof. destruct data; simpl; intros H; try discriminate; split; discriminate. Qed.

Lemma rawContent_truthy_response (data : value) :
  truthy (field data (lit "response")) = true ->
  rawContent data = Return (field data (lit "response")).
Proof.
  intros T. destruct (truthy_field_object _ _ T) as [U N].
  unfold rawContent. rewrite !(Get_field data) by assumption.
  unfold or_else, bind. now rewrite T, T.
Qed.

Lemma fallback_truthy_response (data : value) :
  truthy (field data (lit "response")) = true ->
  fallback data = Return (field data (lit "response")).
Proof.
  intros T. destruct (truthy_field_object _ _ T) as [U N].
  unfold fallback. rewrite !(Get_field data) by assumption.
  unfold or_else, bind. now rewrite T, T.
Qed.

(** X15: a truthy "response" field is all that counts: the reply is what
    it would be for the body that has this field alone, whatever
    "content", "message" or other fields the body has. *)
Theorem truthy_response_decides (agentId : jsstring) (data : value) :
  truthy (field data (lit "response")) = true ->
  callAgentAPI_parse agentId data
  = callAgentAPI_parse agentId
      (Object [(lit "response", field data (lit "response"))]).
Proof.
  intros T.
  assert (T' : truthy (field (Object [(lit "response", field data (lit "response"))])
                         (lit "response")) = true) by exact T.
  unfold callAgentAPI_parse.
  rewrite (rawContent_truthy_response data T), (fallback_truthy_response data T).
  rewrite (rawContent_truthy_response _ T'), (fallback_truthy_response _ T').
  reflexivity.
Qed.

Lemma truthy_response_decides_witness :
  truthy (field (Object [(lit "response", String (lit "{}"));
                         (lit "content", String (quoted "{'response':'lost'}"));
                         (lit "message", String (lit "lost too"))])
            (lit "response")) = true
  /\ callAgentAPI_parse AGENT_IDS.conversation
       (Object [(lit "response", String (lit "{}"));
                (lit "content", String (quoted "{'response':'lost'}"));
                (lit "message", String (lit "lost too"))])
     = Return default_reply.
Proof.
  split; [reflexivity|].
  rewrite (truthy_response_decides AGENT_IDS.conversation
             (Object [(lit "response", String (lit "{}"));
                      (lit "content", String (quoted "{'response':'lost'}"));
                      (lit "message", String (lit "lost too"))]) eq_refl).
  reflexivity.
Defined.

(** X16: content that is JSON but no object (a number, a string
    literal, [true], [false] or an array) is not shown: the reply is the
    default text of the agent. *)
Theorem json_scalar_gives_default (agentId : jsstring) (data raw parsed : value) :
  rawContent data = Return raw ->
  JSON_parse raw = Return parsed ->
  parsed <> Null ->
  (forall ps, parsed <> Object ps) ->
  callAgentAPI_parse agentId data
  = Return (if string_eqb agentId AGENT_IDS.conversation
            then default_reply else default_summary).
Proof.
  intros Hraw Hparsed Hnull Hobj.
  rewrite (parsed_reply agentId data raw parsed Hraw Hparsed Hnull).
  unfold reply_of_parsed.
  destruct parsed; try reflexivity; try (now destruct (string_eqb _ _)).
  now contradiction (Hobj properties).
Qed.

Lemma json_scalar_gives_default_witness :
  rawContent (Object [(lit "response", String (lit "42"))]) = Return (String (lit "42"))
  /\ JSON_parse (String (lit "42")) = Return (Number (number_of_decimal false 42 0))
  /\ callAgentAPI_parse AGENT_IDS.conversation
       (Object [(lit "response", String (lit "42"))])
     = Return (String (lit "I received your message.")).
Proof.
  split; [reflexivity|]. split; [reflexivity|].
  apply (json_scalar_gives_default AGENT_IDS.conversation
           (Object [(lit "response", String (lit "42"))])
           (String (lit "42")) (Number (number_of_decimal false 42 0)));
    (reflexivity || discriminate).
Defined.

(** X17: text under "content" that is not JSON is not shown either.
    With no truthy "response" beside it, the reply is the top-level
    "message" if that is truthy and the default text otherwise, for
    either agent. *)
Theorem plain_content_not_shown (agentId : jsstring) (data : value) (c : jsstring) :
  truthy (field data (lit "response")) = false ->
  field data (lit "content") = String c ->
  c <> [] ->
  parse_text c = None ->
  callAgentAPI_parse agentId data
  = Return (first_truthy [field data (lit "message")] default_reply).
Proof.
  intros Hr Hc Hne Hp.
  assert (T : truthy (field data (lit "content")) = true)
    by (rewrite Hc; now destruct c).
  destruct (truthy_field_object _ _ T) as [U N].
  assert (Hraw : rawContent data = Return (String c)).
  { unfold rawContent. rewrite !(Get_field data) by assumption.
    unfold or_else; simpl. rewrite Hr, Hc. now destruct c. }
  assert (Hthrow : JSON_parse (String c) = Throw SyntaxError).
  { unfold JSON_parse; simpl. now rewrite Hp. }
  rewrite (unparsed_reply agentId data _ _ Hraw Hthrow).
  unfold reply_of_body; simpl. now rewrite Hr.
Qed.

Lemma plain_content_not_shown_witness :
  parse_text (lit "Hello, how can I help?") = None
  /\ callAgentAPI_parse AGENT_IDS.summarization
       (Object [(lit "content", String (lit "Hello, how can I help?"))])
     = Return (String (lit "I received your message.")).
Proof.
  split; [reflexivity|].
  apply (plain_content_not_shown AGENT_IDS.summarization
           (Object [(lit "content", String (lit "Hello, how can I help?"))])
           (lit "Hello, how can I help?"));
    (reflexivity || discriminate).
Defined.

(* ================================================================= *)
(** ** Scanning what [JSON.stringify] writes *)

Lemma hex_value_digit (d : N) : d < 16 -> hex_value (hex_digit d) = Some d.
Proof.
  intros H. destruct d as [|p]; [reflexivity|].
  do 4 (destruct p as [p|p|]; try reflexivity); exfalso; lia.
Qed.

Lemma hex_digits_value (c : N) :
  c < 65536 ->
  (((0 * 16 + c / 4096 mod 16) * 16 + c / 256 mod 16) * 16 + c / 16 mod 16) * 16
  + c mod 16 = c.
Proof.
  intros H. zify. Z.to_euclidean_division_equations. lia.
Qed.

Lemma lex_hex_more (acc : jsstring) (n : nat) (v d : N)
  (toks : list token) (rest : jsstring) :
  d < 16 ->
  lex_from (MHex acc (S (S n)) v) toks (hex_digit d :: rest)
  = lex_from (MHex acc (S n) (v * 16 + d)) toks rest.
Proof. intros H. cbn [lex_from lex_step]. now rewrite hex_value_digit. Qed.

Lemma lex_hex_last (acc : jsstring) (v d : N)
  (toks : list token) (rest : jsstring) :
  d < 16 ->
  lex_from (MHex acc 1 v) toks (hex_digit d :: rest)
  = lex_from (MString ((v * 16 + d) :: acc)) toks rest.
Proof. intros H. cbn [lex_from lex_step]. now rewrite hex_value_digit. Qed.

Lemma lex_unicode_escape (c : N) (acc : jsstring) (toks : list token) (rest : jsstring) :
  c < 65536 ->
  lex_from (MString acc) toks (unicode_escape c ++ rest)
  = lex_from (MString (c :: acc)) toks rest.
Proof.
  intros H.
  transitivity (lex_from (MHex acc 4 0) toks
                  (hex_digit (c / 4096 mod 16) :: hex_digit (c / 256 mod 16)
                   :: hex_digit (c / 16 mod 16) :: hex_digit (c mod 16) :: rest));
    [reflexivity|].
  rewrite !lex_hex_more, lex_hex_last by (apply N.mod_lt; discriminate).
  now rewrite (hex_digits_value c H).
Qed.

Lemma lex_from_step (m m' : lex_mode) (toks toks' : list token) (c : N) (r : jsstring) :
  lex_step m toks c = Some (m', toks') ->
  lex_from m toks (c :: r) = lex_from m' toks' r.
Proof. intros H. cbn [lex_from]. now rewrite H. Qed.

Lemma lex_step_literal (c : N) (acc : jsstring) (toks : list token) :
  (c =? 0x22) = false -> (c =? 0x5C) = false -> (c <? 0x20) = false ->
  lex_step (MString acc) toks c = Some (MString (c :: acc), toks).
Proof. intros H1 H2 H3. cbn [lex_step]. now rewrite H1, H2, H3. Qed.

Lemma lex_quote_unit (c : N) (acc : jsstring) (toks : list token) (rest : jsstring) :
  lex_from (MString acc) toks (quote_unit c ++ rest)
  = lex_from (MString (c :: acc)) toks rest.
Proof.
  unfold quote_unit.
  destruct (c =? 0x08) eqn:E1; [apply N.eqb_eq in E1; now subst|].
  destruct (c =? 0x09) eqn:E2; [apply N.eqb_eq in E2; now subst|].
  destruct (c =? 0x0A) eqn:E3; [apply N.eqb_eq in E3; now subst|].
  destruct (c =? 0x0C) eqn:E4; [apply N.eqb_eq in E4; now subst|].
  destruct (c =? 0x0D) eqn:E5; [apply N.eqb_eq in E5; now subst|].
  destruct (c =? 0x22) eqn:E6; [apply N.eqb_eq in E6; now subst|].
  destruct (c =? 0x5C) eqn:E7; [apply N.eqb_eq in E7; now subst|].
  destruct (c <? 0x20) eqn:E8.
  { apply lex_unicode_escape. apply N.ltb_lt in E8. lia. }
  destruct (is_high_surrogate c || is_low_surrogate c) eqn:E9.
  { apply lex_unicode_escape. unfold is_high_surrogate, is_low_surrogate in E9.
    apply orb_true_iff in E9 as [E9|E9]; apply andb_true_iff in E9 as [_ E9];
      apply N.leb_le in E9; lia. }
  cbn [app]. apply lex_from_step. now apply lex_step_literal.
Qed.

Lemma lex_surrogate (c : N) (acc : jsstring) (toks : list token) :
  0xD800 <= c ->
  lex_step (MString acc) toks c = Some (MString (c :: acc), toks).
Proof.
  intros H. apply lex_step_literal.
  - apply N.eqb_neq. lia.
  - apply N.eqb_neq. lia.
  - apply N.ltb_ge. lia.
Qed.

Lemma lex_quote_units (n : nat) :
  forall s, (List.length s <= n)%nat ->
  forall acc toks rest,
  lex_from (MString acc) toks (quote_units s ++ rest)
  = lex_from (MString (rev s ++ acc)) toks rest.
Proof.
  induction n as [|n IH]; intros s Hs acc toks rest.
  - destruct s; [reflexivity | simpl in Hs; lia].
  - destruct s as [|c r]; [reflexivity|]. simpl in Hs.
    destruct r as [|c' r'].
    + cbn [quote_units]. apply lex_quote_unit.
    + change (quote_units (c :: c' :: r'))
        with (if is_high_surrogate c && is_low_surrogate c'
              then c :: c' :: quote_units r'
              else quote_unit c ++ quote_units (c' :: r')).
      destruct (is_high_surrogate c && is_low_surrogate c') eqn:P.
      * apply andb_true_iff in P as [Hc Hc'].
        unfold is_high_surrogate in Hc. unfold is_low_surrogate in Hc'.
        apply andb_true_iff in Hc as [Hc _]. apply andb_true_iff in Hc' as [Hc' _].
        apply N.leb_le in Hc, Hc'.
        cbn [app].
        rewrite (lex_from_step _ _ _ _ c _ (lex_surrogate c acc toks ltac:(lia))).
        rewrite (lex_from_step _ _ _ _ c' _ (lex_surrogate c' (c :: acc) toks ltac:(lia))).
        rewrite IH by (simpl in Hs; lia).
        simpl. now rewrite <- !app_assoc.
      * rewrite <- app_assoc, lex_quote_unit.
        rewrite IH by (simpl in *; lia).
        simpl. now rewrite <- !app_assoc.
Qed.

Lemma lex_quoted (s : jsstring) (toks : list token) (rest : jsstring) :
  lex_from MStart toks (QuoteJSONString s ++ rest)
  = lex_from MStart (TString s :: toks) rest.
Proof.
  unfold QuoteJSONString. rewrite <- !app_assoc. cbn [app].
  rewrite (lex_from_step MStart (MString []) toks toks 34) by reflexivity.
  rewrite (lex_quote_units (List.length s) s (le_n _)).
  rewrite (lex_from_step _ MStart _ (TString (rev (rev s ++ [])) :: toks) 34)
    by reflexivity.
  now rewrite app_nil_r, rev_involutive.
Qed.

(* ================================================================= *)
(** ** What is written reads back *)

Lemma value_induction (P : value -> Prop) :
  P Undefined -> P Null -> (forall b, P (Boolean b)) -> (forall x, P (Number x)) ->
  (forall s, P (String s)) ->
  (forall l, Forall P l -> P (Array l)) ->
  (forall ps, Forall (fun kv => P (snd kv)) ps -> P (Object ps)) ->
  forall v, P v.
Proof.
  intros HU HN HB HX HS HA HO.
  fix IH 1. intros [| |b|x|s|l|ps].
  - exact HU.
  - exact HN.
  - apply HB.
  - apply HX.
  - apply HS.
  - apply HA. induction l as [|a l IHl]; constructor; [apply IH | exact IHl].
  - apply HO. induction ps as [|[k a] ps IHps]; constructor; [apply IH | exact IHps].
Qed.

Lemma insert_by_index_perm {A} (i : N) (a : A) (l : list (N * A)) :
  Permutation (insert_by_index i a l) ((i, a) :: l).
Proof.
  induction l as [|[j b] r IH]; simpl; [reflexivity|].
  destruct (i <? j); [reflexivity|].
  rewrite IH. apply perm_swap.
Qed.

Lemma own_properties_perm {A} (ps : list (jsstring * A)) :
  Permutation (own_properties ps) ps.
Proof.
  unfold own_properties.
  induction ps as [|[k a] r IH]; simpl; [reflexivity|].
  destruct (indexed_first r) as [ix others].
  destruct (array_index k) as [i|].
  - rewrite (Permutation_map snd (insert_by_index_perm i (k, a) ix)). simpl.
    now constructor.
  - rewrite <- IH. symmetry. apply Permutation_middle.
Qed.

Lemma insert_by_index_map {A B} (f : A -> B) (i : N) (a : A) (l : list (N * A)) :
  insert_by_index i (f a) (map (fun p => (fst p, f (snd p))) l)
  = map (fun p => (fst p, f (snd p))) (insert_by_index i a l).
Proof.
  induction l as [|[j b] r IH]; simpl; [reflexivity|].
  destruct (i <? j); simpl; [reflexivity|]. now rewrite IH.
Qed.

Lemma own_properties_map {A B} (f : A -> B) (ps : list (jsstring * A)) :
  own_properties (map (fun kv => (fst kv, f (snd kv))) ps)
  = map (fun kv => (fst kv, f (snd kv))) (own_properties ps).
Proof.
  unfold own_properties.
  assert (H : indexed_first (map (fun kv => (fst kv, f (snd kv))) ps)
              = (map (fun p => (fst p, (fst (snd p), f (snd (snd p)))))
                   (fst (indexed_first ps)),
                 map (fun kv => (fst kv, f (snd kv))) (snd (indexed_first ps)))).
  { induction ps as [|[k a] r IH]; simpl; [reflexivity|].
    rewrite IH. destruct (indexed_first r) as [ix others]. simpl.
    destruct (array_index k) as [i|]; simpl; [|reflexivity].
    f_equal.
    exact (insert_by_index_map (fun ka => (fst ka, f (snd ka))) i (k, a) ix). }
  rewrite H. destruct (indexed_first ps) as [ix others]. simpl.
  rewrite map_app, !map_map. reflexivity.
Qed.

Lemma number_eqb_eq (x y : number) : number_eqb x y = true -> x = y.
Proof.
  destruct x, y; simpl; intros H; try discriminate; try reflexivity.
  - now apply Bool.eqb_prop in H as ->.
  - now apply Bool.eqb_prop in H as ->.
  - apply andb_true_iff in H as [H He]. apply andb_true_iff in H as [Hs Hm].
    apply Bool.eqb_prop in Hs. apply Pos.eqb_eq in Hm. apply Z.eqb_eq in He.
    now subst.
Qed.

Lemma delimited_step (rest : jsstring) (m : lex_mode) (toks toks' : list token) :
  delimited rest ->
  lex_flush m toks = Some toks' ->
  (forall c, c = 44 \/ c = 93 \/ c = 125 ->
             lex_step m toks c = lex_step MStart toks' c) ->
  lex_from m toks rest = lex_from MStart toks' rest.
Proof.
  intros D F S. destruct rest as [|c r]; [exact F|].
  cbn [lex_from]. now rewrite (S c D).
Qed.

Lemma lex_word (w : jsstring) (t : token) (acc : jsstring)
  (toks : list token) (rest : jsstring) :
  token_of_word (rev acc) = Some t ->
  delimited rest ->
  lex_from (MWord acc) toks rest = lex_from MStart (t :: toks) rest.
Proof.
  intros W D. apply delimited_step; [assumption | simpl; now rewrite W |].
  intros c [-> | [-> | ->]]; cbn [lex_step]; simpl; now rewrite W.
Qed.

Lemma lex_null (toks : list token) (rest : jsstring) :
  delimited rest ->
  lex_from MStart toks (lit "null" ++ rest) = lex_from MStart (TNull :: toks) rest.
Proof.
  intros D. transitivity (lex_from (MWord (rev (lit "null"))) toks rest);
    [reflexivity | now apply (lex_word (lit "null"))].
Qed.

Lemma lex_true (toks : list token) (rest : jsstring) :
  delimited rest ->
  lex_from MStart toks (lit "true" ++ rest) = lex_from MStart (TTrue :: toks) rest.
Proof.
  intros D. transitivity (lex_from (MWord (rev (lit "true"))) toks rest);
    [reflexivity | now apply (lex_word (lit "true"))].
Qed.

Lemma lex_false (toks : list token) (rest : jsstring) :
  delimited rest ->
  lex_from MStart toks (lit "false" ++ rest) = lex_from MStart (TFalse :: toks) rest.
Proof.
  intros D. transitivity (lex_from (MWord (rev (lit "false"))) toks rest);
    [reflexivity | now apply (lex_word (lit "false"))].
Qed.

Lemma lex_start_number (c : N) (toks : list token) :
  (c =? 45) || is_digit c = true ->
  lex_step MStart toks c = Some (MNumber [c], toks).
Proof.
  intros H. apply orb_true_iff in H as [H|H].
  - apply N.eqb_eq in H. now subst.
  - unfold is_digit in H. apply andb_true_iff in H as [H1 H2].
    apply N.leb_le in H1, H2.
    assert (E : forall k, k < 48 -> (c =? k) = false)
      by (intros k Hk; apply N.eqb_neq; lia).
    assert (E' : forall k, 57 < k -> (c =? k) = false)
      by (intros k Hk; apply N.eqb_neq; lia).
    cbn [lex_step]. unfold lex_start.
    rewrite (E 9), (E 10), (E 13), (E 32), (E' 123), (E' 125), (E' 91), (E' 93),
      (E' 58), (E 44), (E 34), (E 45) by reflexivity.
    unfold is_digit.
    replace (48 <=? c) with true by (symmetry; now apply N.leb_le).
    replace (c <=? 57) with true by (symmetry; now apply N.leb_le).
    reflexivity.
Qed.

Lemma lex_number_units (s : jsstring) :
  forall acc toks rest, forallb is_number_unit s = true ->
  lex_from (MNumber acc) toks (s ++ rest)
  = lex_from (MNumber (rev s ++ acc)) toks rest.
Proof.
  induction s as [|c r IH]; intros acc toks rest H; [reflexivity|].
  simpl in H. apply andb_true_iff in H as [Hc Hr].
  cbn [app]. rewrite (lex_from_step (MNumber acc) (MNumber (c :: acc)) toks toks c)
    by (cbn [lex_step]; now rewrite Hc).
  rewrite IH by assumption. simpl. now rewrite <- app_assoc.
Qed.

Lemma lex_number (x : number) (toks : list token) (rest : jsstring) :
  rereads x = true ->
  delimited rest ->
  lex_from MStart toks (Number_toString x ++ rest)
  = lex_from MStart (TNumber x :: toks) rest.
Proof.
  unfold rereads. intros H D. apply andb_true_iff in H as [_ H].
  destruct (Number_toString x) as [|c s]; [discriminate|].
  apply andb_true_iff in H as [H L]. apply andb_true_iff in H as [Hc Hs].
  destruct (number_of_lexeme (c :: s)) as [y|] eqn:Y; [|discriminate].
  apply number_eqb_eq in L. subst y.
  cbn [app]. rewrite (lex_from_step _ _ _ _ c _ (lex_start_number c toks Hc)).
  rewrite (lex_number_units s) by assumption.
  assert (F : lex_flush (MNumber (rev s ++ [c])) toks = Some (TNumber x :: toks)).
  { cbn [lex_flush]. rewrite rev_app_distr, rev_involutive. simpl. now rewrite Y. }
  apply delimited_step; [assumption | exact F |].
  intros d Hd. cbn [lex_step].
  assert (U : is_number_unit d = false) by (destruct Hd as [-> | [-> | ->]]; reflexivity).
  rewrite U. now rewrite F.
Qed.

Lemma lex_parts (l : list value) :
  Forall scans l -> forallb plain l = true ->
  forall toks rest, delimited rest ->
  lex_from MStart toks (join (lit ",") (map part l) ++ rest)
  = lex_from MStart (rev (separated (map tokens l)) ++ toks) rest.
Proof.
  induction l as [|a l IH]; intros HF HP toks rest D; [reflexivity|].
  inversion HF as [|? ? Ha Hl]; subst.
  simpl in HP. apply andb_true_iff in HP as [Pa Pl].
  destruct (Ha Pa) as [t [Et Lt]].
  assert (Epart : part a = t) by (unfold part; now rewrite Et).
  destruct l as [|b r].
  - simpl. rewrite Epart. now apply Lt.
  - change (join (lit ",") (map part (a :: b :: r)))
      with (part a ++ lit "," ++ join (lit ",") (map part (b :: r))).
    change (separated (map tokens (a :: b :: r)))
      with (tokens a ++ TComma :: separated (map tokens (b :: r))).
    rewrite Epart, <- !app_assoc.
    rewrite Lt by (simpl; auto).
    change (lex_from MStart (rev (tokens a) ++ toks)
              (lit "," ++ join (lit ",") (map part (b :: r)) ++ rest))
      with (lex_from MStart (TComma :: rev (tokens a) ++ toks)
              (join (lit ",") (map part (b :: r)) ++ rest)).
    rewrite (IH Hl Pl) by assumption.
    rewrite rev_app_distr. simpl. now rewrite <- !app_assoc.
Qed.

Lemma join_cons (sep p : jsstring) (l : list jsstring) :
  l <> [] -> join sep (p :: l) = p ++ sep ++ join sep l.
Proof. destruct l; [congruence | reflexivity]. Qed.

Lemma separated_cons (p : list token) (l : list (list token)) :
  l <> [] -> separated (p :: l) = p ++ TComma :: separated l.
Proof. destruct l; [congruence | reflexivity]. Qed.

Lemma lex_comma (toks : list token) (rest : jsstring) :
  lex_from MStart toks (lit "," ++ rest) = lex_from MStart (TComma :: toks) rest.
Proof. reflexivity. Qed.

Lemma lex_colon (toks : list token) (rest : jsstring) :
  lex_from MStart toks (lit ":" ++ rest) = lex_from MStart (TColon :: toks) rest.
Proof. reflexivity. Qed.

Lemma lex_members (qs : list (jsstring * value)) :
  Forall (fun kv => scans (snd kv)) qs ->
  forallb (fun kv => plain (snd kv)) qs = true ->
  forall toks rest, delimited rest ->
  lex_from MStart toks
    (join (lit ",")
       (flat_map member (map (fun kv => (fst kv, serialize (snd kv))) qs)) ++ rest)
  = lex_from MStart
      (rev (separated (map member_tokens
                         (map (fun kv => (fst kv, tokens (snd kv))) qs))) ++ toks)
      rest.
Proof.
  induction qs as [|[k a] l IH]; intros HF HP toks rest D; [reflexivity|].
  inversion HF as [|? ? Ha Hl]; subst. simpl in Ha.
  simpl in HP. apply andb_true_iff in HP as [Pa Pl].
  destruct (Ha Pa) as [t [Et Lt]].
  assert (One : forall rest',
            delimited rest' ->
            lex_from MStart toks ((QuoteJSONString k ++ lit ":" ++ t) ++ rest')
            = lex_from MStart (rev (member_tokens (k, tokens a)) ++ toks) rest').
  { intros rest' D'. rewrite <- !app_assoc, lex_quoted, lex_colon.
    rewrite Lt by assumption. unfold member_tokens. simpl.
    now rewrite <- !app_assoc. }
  cbn [map flat_map]. unfold member at 1. cbn [fst snd]. rewrite Et.
  change ([QuoteJSONString k ++ lit ":" ++ t] ++
          flat_map member (map (fun kv => (fst kv, serialize (snd kv))) l))
    with ((QuoteJSONString k ++ lit ":" ++ t) ::
          flat_map member (map (fun kv => (fst kv, serialize (snd kv))) l)).
  destruct l as [|[k' b] r].
  - simpl. now apply One.
  - assert (Pb : plain b = true) by (simpl in Pl; now apply andb_true_iff in Pl as [Pb _]).
    assert (Hb : scans b) by (now inversion Hl).
    destruct (Hb Pb) as [t' [Et' _]].
    rewrite join_cons
      by (cbn [map flat_map]; unfold member at 1; cbn [fst snd]; rewrite Et'; discriminate).
    rewrite separated_cons by discriminate.
    rewrite <- (app_assoc (QuoteJSONString k ++ lit ":" ++ t)).
    rewrite One by (simpl; auto).
    rewrite <- app_assoc, lex_comma.
    rewrite (IH Hl Pl) by assumption.
    rewrite rev_app_distr. simpl. now rewrite <- !app_assoc.
Qed.

Lemma forallb_perm {A} (f : A -> bool) (l l' : list A) :
  Permutation l l' -> forallb f l = true -> forallb f l' = true.
Proof.
  intros P H. rewrite forallb_forall in *. intros x Hx. apply H.
  now apply (Permutation_in x (Permutation_sym P)).
Qed.

Lemma scans_all : forall v, scans v.
Proof.
  apply value_induction; unfold scans.
  - discriminate.
  - intros _. exists (lit "null"). split; [reflexivity|].
    intros toks rest D. now apply lex_null.
  - intros [|] _.
    + exists (lit "true"). split; [reflexivity|]. intros; now apply lex_true.
    + exists (lit "false"). split; [reflexivity|]. intros; now apply lex_false.
  - intros x H. simpl in H. exists (Number_toString x). split.
    + simpl. unfold rereads in H. apply andb_true_iff in H as [H _]. now rewrite H.
    + intros toks rest D. now apply lex_number.
  - intros s _. exists (QuoteJSONString s). split; [reflexivity|].
    intros toks rest _. apply lex_quoted.
  - intros l HF HP. simpl in HP.
    exists (lit "[" ++ join (lit ",") (map part l) ++ lit "]").
    split; [reflexivity|]. intros toks rest D.
    rewrite <- !app_assoc.
    change (lex_from MStart toks (lit "[" ++ join (lit ",") (map part l) ++ lit "]" ++ rest))
      with (lex_from MStart (TLBracket :: toks)
              (join (lit ",") (map part l) ++ lit "]" ++ rest)).
    rewrite (lex_parts l HF HP) by (simpl; auto).
    change (lex_from MStart (rev (separated (map tokens l)) ++ TLBracket :: toks)
              (lit "]" ++ rest))
      with (lex_from MStart
              (TRBracket :: rev (separated (map tokens l)) ++ TLBracket :: toks) rest).
    simpl. rewrite rev_app_distr. simpl. now rewrite <- !app_assoc.
  - intros ps HF HP. simpl in HP. apply andb_true_iff in HP as [HP _].
    exists (lit "{" ++ join (lit ",")
              (flat_map member
                 (own_properties (map (fun kv => (fst kv, serialize (snd kv))) ps)))
              ++ lit "}").
    split; [reflexivity|]. intros toks rest D.
    rewrite (own_properties_map serialize ps).
    rewrite <- !app_assoc.
    pose proof (own_properties_perm ps) as Perm.
    assert (HF' : Forall (fun kv => scans (snd kv)) (own_properties ps))
      by (apply (Permutation_Forall (Permutation_sym Perm)); assumption).
    assert (HP' : forallb (fun kv => plain (snd kv)) (own_properties ps) = true)
      by (apply (forallb_perm _ _ _ (Permutation_sym Perm)); assumption).
    match goal with
    | |- lex_from MStart toks (lit "{" ++ ?body) = _ =>
        change (lex_from MStart toks (lit "{" ++ body))
          with (lex_from MStart (TLBrace :: toks) body)
    end.
    rewrite (lex_members (own_properties ps) HF' HP') by (simpl; auto).
    match goal with
    | |- lex_from MStart ?tk (lit "}" ++ rest) = _ =>
        change (lex_from MStart tk (lit "}" ++ rest))
          with (lex_from MStart (TRBrace :: tk) rest)
    end.
    cbn [tokens]. rewrite (own_properties_map tokens ps). fold member_tokens.
    simpl. rewrite rev_app_distr. simpl. now rewrite <- !app_assoc.
Qed.

Lemma distinct_NoDup (ks : list jsstring) : distinct ks = true -> NoDup ks.
Proof.
  induction ks as [|k r IH]; simpl; intros H; constructor;
    apply andb_true_iff in H as [Hk Hr].
  - intros I. apply negb_true_iff in Hk.
    assert (E : existsb (string_eqb k) r = true).
    { apply existsb_exists. exists k. split; [assumption | now apply string_eqb_eq]. }
    congruence.
  - now apply IH.
Qed.

Lemma define_fresh (k : jsstring) (v : value) (done : list (jsstring * value)) :
  ~ In k (map fst done) -> define k v done = done ++ [(k, v)].
Proof.
  induction done as [|[k' v'] r IH]; simpl; intros H; [reflexivity|].
  destruct (string_eqb k k') eqn:E.
  - apply string_eqb_eq in E. subst. exfalso. apply H. now left.
  - rewrite IH; [reflexivity|]. intros I. apply H. now right.
Qed.

Lemma parse_array_start (a : value) (stack : list frame) (rest : list token) :
  plain a = true ->
  parse_from (PArrayStart stack) (tokens a ++ rest)
  = parse_from (PValue (FArray [] :: stack)) (tokens a ++ rest).
Proof.
  destruct a as [| |[|]|x|s|l|ps]; simpl; try discriminate; reflexivity.
Qed.

Lemma parse_elements (l : list value) :
  Forall parses l -> forallb plain l = true -> l <> [] ->
  forall done stack rest,
  parse_from (PValue (FArray done :: stack))
    (separated (map tokens l) ++ TRBracket :: rest)
  = parse_from (complete (Array (rev done ++ map enumerated l)) stack) rest.
Proof.
  induction l as [|a l IH]; intros HF HP Hne done stack rest; [congruence|].
  inversion HF as [|? ? Ha Hl]; subst.
  simpl in HP. apply andb_true_iff in HP as [Pa Pl].
  destruct l as [|b r].
  - cbn [map separated]. rewrite (Ha Pa). cbn [complete parse_from parse_step].
    simpl. reflexivity.
  - cbn [map]. rewrite separated_cons by discriminate.
    rewrite <- app_assoc. rewrite (Ha Pa).
    cbn [complete app parse_from parse_step].
    change (map tokens (b :: r)) with (map tokens (b :: r)).
    rewrite (IH Hl Pl) by discriminate.
    simpl. now rewrite <- !app_assoc.
Qed.

Lemma parse_members (qs : list (jsstring * value)) :
  Forall (fun kv => parses (snd kv)) qs ->
  forallb (fun kv => plain (snd kv)) qs = true ->
  qs <> [] ->
  forall done stack rest,
  NoDup (map fst done ++ map fst qs) ->
  parse_from (PKey done stack)
    (separated (map member_tokens (map (fun kv => (fst kv, tokens (snd kv))) qs))
       ++ TRBrace :: rest)
  = parse_from
      (complete (Object (done ++ map (fun kv => (fst kv, enumerated (snd kv))) qs))
         stack) rest.
Proof.
  induction qs as [|[k a] l IH]; intros HF HP Hne done stack rest ND; [congruence|].
  inversion HF as [|? ? Ha Hl]; subst. simpl in Ha.
  simpl in HP. apply andb_true_iff in HP as [Pa Pl].
  assert (Fresh : ~ In k (map fst done)).
  { intros I. apply NoDup_remove_2 in ND. apply ND. apply in_or_app. now left. }
  assert (ND' : NoDup (map fst (done ++ [(k, enumerated a)]) ++ map fst l)).
  { rewrite map_app, <- app_assoc. exact ND. }
  destruct l as [|[k' b] r].
  - cbn [map separated member_tokens fst snd app parse_from parse_step].
    rewrite (Ha Pa). cbn [complete parse_from parse_step].
    now rewrite (define_fresh k _ done Fresh).
  - cbn [map]. rewrite separated_cons by discriminate.
    unfold member_tokens at 1. cbn [fst snd app parse_from parse_step].
    rewrite <- app_assoc. rewrite (Ha Pa).
    cbn [complete app parse_from parse_step].
    rewrite (define_fresh k _ done Fresh).
    change ((k', tokens b) :: map (fun kv => (fst kv, tokens (snd kv))) r)
      with (map (fun kv => (fst kv, tokens (snd kv))) ((k', b) :: r)).
    rewrite (IH Hl Pl) by (discriminate || exact ND').
    now rewrite <- app_assoc.
Qed.

Lemma parses_all : forall v, parses v.
Proof.
  apply value_induction; unfold parses.
  - discriminate.
  - reflexivity.
  - intros [|]; reflexivity.
  - reflexivity.
  - reflexivity.
  - intros l HF HP stack rest. simpl in HP.
    cbn [tokens enumerated app]. cbn [parse_from parse_step parse_value].
    destruct l as [|a r]; [reflexivity|].
    rewrite <- app_assoc. cbn [app].
    change (separated (map tokens (a :: r)) ++ TRBracket :: rest)
      with (separated (tokens a :: map tokens r) ++ TRBracket :: rest).
    assert (Pa : plain a = true) by (simpl in HP; now apply andb_true_iff in HP as [Pa _]).
    destruct r as [|b r'].
    + cbn [map separated]. rewrite (parse_array_start a) by assumption.
      exact (parse_elements [a] HF HP ltac:(discriminate) [] stack rest).
    + rewrite separated_cons by discriminate. rewrite <- app_assoc.
      rewrite (parse_array_start a) by assumption.
      rewrite app_assoc. rewrite <- separated_cons by discriminate.
      exact (parse_elements (a :: b :: r') HF HP ltac:(discriminate) [] stack rest).
  - intros ps HF HP stack rest. simpl in HP. apply andb_true_iff in HP as [HP HD].
    cbn [tokens enumerated app]. cbn [parse_from parse_step parse_value].
    rewrite (own_properties_map tokens ps), (own_properties_map enumerated ps).
    pose proof (own_properties_perm ps) as Perm.
    assert (HF' : Forall (fun kv => parses (snd kv)) (own_properties ps))
      by (apply (Permutation_Forall (Permutation_sym Perm)); assumption).
    assert (HP' : forallb (fun kv => plain (snd kv)) (own_properties ps) = true)
      by (apply (forallb_perm _ _ _ (Permutation_sym Perm)); assumption).
    assert (ND : NoDup (map fst (own_properties ps))).
    { apply (Permutation_NoDup (Permutation_map fst (Permutation_sym Perm))).
      now apply distinct_NoDup. }
    fold member_tokens.
    destruct (own_properties ps) as [|[k a] qs] eqn:Q; [reflexivity|].
    rewrite <- app_assoc. cbn [app].
    transitivity (parse_from (PKey [] stack)
                    (separated (map member_tokens
                        (map (fun kv => (fst kv, tokens (snd kv))) ((k, a) :: qs)))
                     ++ TRBrace :: rest)).
    + destruct qs as [|[k' b] qs']; reflexivity.
    + exact (parse_members ((k, a) :: qs) HF' HP' ltac:(discriminate) [] stack rest ND).
Qed.

(** The text written for a value scans and parses to the value. *)
Lemma stringify_parse (v : value) :
  plain v = true ->
  JSON_parse (JSON_stringify v) = Return (enumerated v).
Proof.
  intros P. destruct (scans_all v P) as [t [Et L]].
  unfold JSON_stringify. rewrite Et. unfold JSON_parse. simpl.
  unfold parse_text, lex.
  rewrite <- (app_nil_r t), (L [] [] I). simpl.
  rewrite app_nil_r, rev_involutive.
  rewrite <- (app_nil_r (tokens v)), (parses_all v P). reflexivity.
Qed.

(** X18: what [JSON.stringify] writes, [JSON.parse] reads back.  For a
    value free of [undefined] and of repeated keys, all of whose numbers
    read back from their text, the result is the value itself, the
    properties of each object in their enumeration order. *)
Theorem value_reads_back (v : value) :
  plain v = true ->
  JSON_parse (JSON_stringify v) = Return (enumerated v).
Proof. exact (stringify_parse v). Qed.

(** X19: the body that is posted reads back as the four fields it was
    made of, the message text unchanged whatever it contains. *)
Theorem request_reads_back (rq : request) :
  exists text,
    request_body rq = String text
    /\ json text
       = Return (Object [(lit "user_id", String (user_id rq));
                         (lit "agent_id", String (agent_id rq));
                         (lit "session_id", String (session_id rq));
                         (lit "message", String (message rq))]).
Proof.
  pose proof (stringify_parse
                (Object [(lit "user_id", String (user_id rq));
                         (lit "agent_id", String (agent_id rq));
                         (lit "session_id", String (session_id rq));
                         (lit "message", String (message rq))]) eq_refl) as R.
  unfold request_body. eexists.
  split; [unfold JSON_stringify; cbn [serialize]; reflexivity | exact R].
Qed.

Lemma lookup_In (k : jsstring) (v : value) (l : list (jsstring * value)) :
  NoDup (map fst l) -> (lookup k l = Some v <-> In (k, v) l).
Proof.
  induction l as [|[k' v'] r IH]; simpl; intros ND.
  - split; [discriminate | contradiction].
  - inversion ND as [|? ? Hk Hr]; subst.
    destruct (string_eqb k k') eqn:E.
    + apply string_eqb_eq in E. subst k'. split.
      * intros [= ->]. now left.
      * intros [[= ->]|I]; [reflexivity|].
        exfalso. apply Hk. now apply (in_map fst) in I.
    + split.
      * intros H. right. now apply IH.
      * intros [[= -> ->]|I].
        -- assert (T : string_eqb k k = true) by now apply string_eqb_eq.
           congruence.
        -- now apply IH.
Qed.

Lemma lookup_perm (k : jsstring) (l l' : list (jsstring * value)) :
  NoDup (map fst l) -> Permutation l l' -> lookup k l' = lookup k l.
Proof.
  intros ND P.
  assert (ND' : NoDup (map fst l'))
    by (apply (Permutation_NoDup (Permutation_map fst P)); assumption).
  destruct (lookup k l) as [v|] eqn:E.
  - apply (lookup_In k v l' ND'). apply (Permutation_in _ P).
    now apply (lookup_In k v l ND).
  - destruct (lookup k l') as [v'|] eqn:E'; [|reflexivity].
    apply (lookup_In k v' l' ND') in E'.
    apply (Permutation_in _ (Permutation_sym P)) in E'.
    apply (lookup_In k v' l ND) in E'. congruence.
Qed.

Lemma lookup_map (f : value -> value) (k : jsstring) (l : list (jsstring * value)) :
  lookup k (map (fun kv => (fst kv, f (snd kv))) l) = option_map f (lookup k l).
Proof.
  induction l as [|[k' v'] r IH]; simpl; [reflexivity|].
  now destruct (string_eqb k k').
Qed.

Lemma truthy_enumerated (v : value) : truthy (enumerated v) = truthy v.
Proof. now destruct v. Qed.

Lemma field_enumerated (v : value) (k : jsstring) :
  plain v = true \/ v = Undefined ->
  field (enumerated v) k = enumerated (field v k).
Proof.
  intros [P| ->]; [|reflexivity].
  destruct v as [| |b|x|s|l|ps]; try reflexivity.
  simpl in P. apply andb_true_iff in P as [_ D].
  cbn [enumerated field]. rewrite (own_properties_map enumerated ps).
  rewrite lookup_map.
  rewrite (lookup_perm k ps (own_properties ps))
    by (now apply distinct_NoDup || (symmetry; apply own_properties_perm)).
  now destruct (lookup k ps).
Qed.

Lemma plain_field (v : value) (k : jsstring) :
  plain v = true -> plain (field v k) = true \/ field v k = Undefined.
Proof.
  destruct v as [| |b|x|s|l|ps]; simpl; auto.
  intros P. apply andb_true_iff in P as [P _].
  induction ps as [|[k' a] r IH]; simpl; [now right|].
  simpl in P. apply andb_true_iff in P as [Pa Pr].
  destruct (string_eqb k k'); [now left | now apply IH].
Qed.

Lemma reply_of_parsed_enumerated (agentId : jsstring) (data : value) :
  plain data = true ->
  reply_of_parsed agentId (enumerated data) = enumerated (reply_of_parsed agentId data).
Proof.
  intros P. unfold reply_of_parsed.
  pose proof (plain_field data (lit "result") P) as Pr.
  rewrite !(field_enumerated data) by now left.
  rewrite (field_enumerated (field data (lit "result"))) by exact Pr.
  destruct (string_eqb agentId AGENT_IDS.conversation); simpl;
    rewrite !truthy_enumerated;
    repeat match goal with |- context [if ?b then _ else _] => destruct b end;
    reflexivity.
Qed.

(** X20: a body without truthy "response" and "content" is its own
    content: it is written out as JSON, read back, and the reply is taken
    from its own fields by the field order of the agent, "response" or
    "message" for the conversational agent, "result"."summary" or
    "summary" for the other one, else the default text. *)
Theorem body_is_its_own_content (agentId : jsstring) (data : value) :
  plain data = true ->
  data <> Null ->
  truthy (field data (lit "response")) = false ->
  truthy (field data (lit "content")) = false ->
  callAgentAPI_parse agentId data
  = Return (enumerated (reply_of_parsed agentId data)).
Proof.
  intros P N Hr Hc.
  assert (U : data <> Undefined) by (intros ->; discriminate).
  assert (Hraw : rawContent data = Return (JSON_stringify data)).
  { unfold rawContent. rewrite !(Get_field data) by assumption.
    unfold or_else, bind. now rewrite Hr, Hc. }
  rewrite (parsed_reply agentId data _ _ Hraw (stringify_parse data P)).
  - now rewrite reply_of_parsed_enumerated.
  - destruct data; discriminate || congruence.
Qed.

Lemma body_is_its_own_content_witness :
  plain (Object [(lit "status", Number (number_of_decimal false 200 0));
                 (lit "ok", Boolean true);
                 (lit "result", Object [(lit "summary", String (lit "In short."));
                                        (lit "score", Number (number_of_decimal false 5 (-1)))])])
  = true
  /\ callAgentAPI_parse AGENT_IDS.summarization
       (Object [(lit "status", Number (number_of_decimal false 200 0));
                (lit "ok", Boolean true);
                (lit "result", Object [(lit "summary", String (lit "In short."));
                                       (lit "score", Number (number_of_decimal false 5 (-1)))])])
     = Return (String (lit "In short.")).
Proof.
  split; [reflexivity|].
  apply (body_is_its_own_content AGENT_IDS.summarization
           (Object [(lit "status", Number (number_of_decimal false 200 0));
                    (lit "ok", Boolean true);
                    (lit "result", Object [(lit "summary", String (lit "In short."));
                                           (lit "score", Number (number_of_decimal false 5 (-1)))])]));
    (reflexivity || discriminate).
Defined.

Lemma value_reads_back_witness :
  plain (Array [Number (number_of_decimal true 15 (-1)); Null; Boolean false;
                String [0x22; 0x5C; 0x0A; 0xD800; 0x41];
                Object [(lit "b", Array []); (lit "10", Object []); (lit "2", Null)]])
  = true
  /\ JSON_parse (JSON_stringify
       (Array [Number (number_of_decimal true 15 (-1)); Null; Boolean false;
               String [0x22; 0x5C; 0x0A; 0xD800; 0x41];
               Object [(lit "b", Array []); (lit "10", Object []); (lit "2", Null)]]))
     = Return
         (Array [Number (number_of_decimal true 15 (-1)); Null; Boolean false;
                 String [0x22; 0x5C; 0x0A; 0xD800; 0x41];
                 Object [(lit "2", Null); (lit "10", Object []); (lit "b", Array [])]]).
Proof.
  split; [reflexivity|].
  apply (value_reads_back
           (Array [Number (number_of_decimal true 15 (-1)); Null; Boolean false;
                   String [0x22; 0x5C; 0x0A; 0xD800; 0x41];
                   Object [(lit "b", Array []); (lit "10", Object []); (lit "2", Null)]])).
  reflexivity.
Defined.
